(** * validasi.py: a verification development

    A shallow embedding of [validasi.py], the API-key validator: Python
    strings are lists of Unicode code points, Python [int]s are [Z],
    exceptions and [sys.exit] are explicit outcomes, and everything the
    program does to the outside world (printing, HTTP requests, sleeping,
    writing files) is recorded in a trace of events. *)

From Stdlib Require Import ZArith NArith Ascii String List Lia Permutation Sorted.
From Stdlib Require PrimFloat DecimalPos DecimalN.
From stdpp Require Import base tactics option list numbers sorting.

Open Scope Z_scope.

(** ** Python strings *)

Module PyStr.

(** A character is its Unicode code point. *)
Abbreviation char := N.
Abbreviation pystr := (list N).

(** An ASCII literal as a Python string. *)
Definition str (s : string) : pystr :=
  map N_of_ascii (list_ascii_of_string s).

Arguments str : simpl never.

Definition LF : char := 10%N.
Definition CR : char := 13%N.

(** [str.isspace] on one character: the code points CPython lists as
    whitespace. *)
Definition is_space (c : char) : bool :=
  ((9 <=? c) && (c <=? 13) || (28 <=? c) && (c <=? 32)
   || (c =? 133) || (c =? 160) || (c =? 5760)
   || (8192 <=? c) && (c <=? 8202)
   || (c =? 8232) || (c =? 8233) || (c =? 8239) || (c =? 8287)
   || (c =? 12288))%N.

(** The line boundaries of [str.splitlines]. *)
Definition is_linebreak (c : char) : bool :=
  ((10 <=? c) && (c <=? 13) || (28 <=? c) && (c <=? 30)
   || (c =? 133) || (c =? 8232) || (c =? 8233))%N.

Fixpoint drop_while (p : char -> bool) (s : pystr) : pystr :=
  match s with
  | [] => []
  | c :: s' => if p c then drop_while p s' else s
  end.

Definition lstrip (s : pystr) : pystr := drop_while is_space s.
Definition rstrip (s : pystr) : pystr := rev (drop_while is_space (rev s)).

(** [s.strip()] *)
Definition strip (s : pystr) : pystr := rstrip (lstrip s).

(** [s.splitlines()]: [cur] holds, reversed, the characters of the line
    being read.  A line is closed by a line boundary ([\r\n] counts as
    one), the last line also by the end of the text, and no empty line
    follows a final boundary. *)
Fixpoint splitlines_from (cur : pystr) (s : pystr) {struct s} : list pystr :=
  match s with
  | [] => match cur with [] => [] | _ => [rev cur] end
  | c :: rest =>
      if is_linebreak c then
        rev cur ::
          (if (c =? CR)%N then
             match rest with
             | d :: rest' =>
                 if (d =? LF)%N then splitlines_from [] rest'
                 else splitlines_from [] rest
             | [] => splitlines_from [] rest
             end
           else splitlines_from [] rest)
      else splitlines_from (c :: cur) rest
  end.

Definition splitlines (s : pystr) : list pystr := splitlines_from [] s.

(** [s.startswith(c)] for a one-character prefix. *)
Definition startswith_char (c : char) (s : pystr) : bool :=
  match s with
  | d :: _ => (d =? c)%N
  | [] => false
  end.

(** *** Slicing

    [s[start:stop]] first adjusts the two bounds to the length of the
    string, as CPython's [PySlice_AdjustIndices] does for step 1, and then
    reads the characters between them one by one; a read outside the
    string is a failure. *)
Definition adjust_index (len i : Z) : Z :=
  if i <? 0 then (if i + len <? 0 then 0 else i + len)
  else if len <=? i then len
  else i.

Fixpoint chars_from (s : pystr) (pos : nat) (n : nat) : option pystr :=
  match n with
  | O => Some []
  | S n' =>
      match s !! pos, chars_from s (S pos) n' with
      | Some c, Some tl => Some (c :: tl)
      | _, _ => None
      end
  end.

Definition getslice (s : pystr) (start stop : option Z) : option pystr :=
  let len := Z.of_nat (length s) in
  let a := match start with Some i => adjust_index len i | None => 0 end in
  let b := match stop with Some j => adjust_index len j | None => len end in
  chars_from s (Z.to_nat a) (Z.to_nat (b - a)).

(** *** Formatting integers: [str(n)] and [f'{n}'] for an [int] *)

Definition digit_char (d : N) : char := (48 + d)%N.

Fixpoint chars_of_uint (u : Decimal.uint) : pystr :=
  match u with
  | Decimal.Nil => []
  | Decimal.D0 u' => digit_char 0 :: chars_of_uint u'
  | Decimal.D1 u' => digit_char 1 :: chars_of_uint u'
  | Decimal.D2 u' => digit_char 2 :: chars_of_uint u'
  | Decimal.D3 u' => digit_char 3 :: chars_of_uint u'
  | Decimal.D4 u' => digit_char 4 :: chars_of_uint u'
  | Decimal.D5 u' => digit_char 5 :: chars_of_uint u'
  | Decimal.D6 u' => digit_char 6 :: chars_of_uint u'
  | Decimal.D7 u' => digit_char 7 :: chars_of_uint u'
  | Decimal.D8 u' => digit_char 8 :: chars_of_uint u'
  | Decimal.D9 u' => digit_char 9 :: chars_of_uint u'
  end.

Definition str_nat (n : N) : pystr := chars_of_uint (N.to_uint n).

Definition str_int (z : Z) : pystr :=
  match z with
  | Z0 => str "0"
  | Zpos p => str_nat (Npos p)
  | Zneg p => str "-" ++ str_nat (Npos p)
  end.

(** Padding of format specifications: [{x:5s}] pads on the right,
    [{n:2d}] on the left, both with spaces and never truncating. *)
Definition SP : char := 32%N.
Definition ljust (w : nat) (s : pystr) : pystr :=
  s ++ replicate (w - length s) SP.
Definition rjust (w : nat) (s : pystr) : pystr :=
  replicate (w - length s) SP ++ s.

End PyStr.
Import PyStr.

(** ** The key file and the mask *)

(** What the file system answers when the key file is looked up and read:
    the path does not exist, it exists but [read_text] raises (a directory,
    no permission, bytes that are not UTF-8), or it holds a text. *)
Inductive file_state :=
| Absent
| Unreadable (err : pystr)
| Holds (text : pystr).

(** The loop of [read_keys]: a line's stripped form is appended unless it
    is empty or starts with [#]. *)
Fixpoint read_keys_loop (keys : list pystr) (lines : list pystr) : list pystr :=
  match lines with
  | [] => keys
  | line :: lines' =>
      let s := strip line in
      if match s with [] => true | _ => false end || startswith_char 35%N s
      then read_keys_loop keys lines'
      else read_keys_loop (keys ++ [s]) lines'
  end.

(** [read_keys path], given what the file system holds at [path]; [inr] is
    the raised exception, as its [str]. *)
Definition read_keys (fs : pystr -> file_state) (path : pystr)
  : list pystr + pystr :=
  match fs path with
  | Absent => inr (str "Key file not found: " ++ path)
  | Unreadable err => inr err
  | Holds text => inl (read_keys_loop [] (splitlines text))
  end.

(** [mask_key k]; [None] stands for a slice that failed. *)
Definition mask_key (k : pystr) : option pystr :=
  if (length k <=? 10)%nat then
    a ← getslice k None (Some 2);
    b ← getslice k (Some (-2)) None;
    Some (a ++ str "..." ++ b)
  else
    a ← getslice k None (Some 4);
    b ← getslice k (Some (-4)) None;
    Some (a ++ str "..." ++ b).

(** ** Command line, outside world and events *)

Inductive auth_mode := bearer | api_key_header | query_key.

Definition auth_mode_str (m : auth_mode) : pystr :=
  match m with
  | bearer => str "bearer"
  | api_key_header => str "api_key_header"
  | query_key => str "query_key"
  end.

(** [--delay] and [--timeout] are Python floats, that is binary64 numbers;
    the program only passes them on. *)
Definition float : Type := PrimFloat.float.

(** The parsed command line ([args] in [main]). *)
Record args := {
  arg_file : pystr;
  arg_endpoint : pystr;
  arg_auth_mode : auth_mode;
  arg_key_name : pystr;
  arg_delay : float;
  arg_debug_log : pystr;
  arg_timeout : float
}.

(** A dict of strings, in insertion order. *)
Definition strdict : Type := list (pystr * pystr).

(** What [requests.get] does: it raises, or returns a response [r] with
    its [status_code], its [text], and [json.dumps(r.json())] when
    [r.json()] succeeds. *)
Inductive requests_result :=
| GetRaises (err : pystr)
| GetResponse (status_code : Z) (text : pystr) (json_text : option pystr).

(** What [urlopen] does: it returns a response (what its [getcode()]
    gives, which is [None] when the URL is not an HTTP one, and its decoded
    body), raises an [HTTPError] (its code, its decoded body when it can be
    read, and its [str]), or raises something else. *)
Inductive urlopen_result :=
| OpenResponse (code : option Z) (body : pystr)
| OpenHTTPError (code : Z) (body : option pystr) (err : pystr)
| OpenRaises (err : pystr).

(** The world the program runs in.
    - [fs]: the key file as the file system has it;
    - [have_requests]: whether [import requests] succeeded;
    - [requests_get], [urlopen]: the answers of the network; their first
      argument is the position of the key being checked, so that the same
      request may be answered differently at different times;
    - [quote]: [urllib.parse.quote];
    - [ctime]: what [time.ctime()] returns when the log is written;
    - [path_str]: [str(Path(p))];
    - [aktif_path]: [Path(file).resolve().parent / 'aktif.txt'] as a
      string, or the text of the exception raised on the way;
    - [open_w]: the text of the exception raised when the file at a path
      is opened for writing, if any; the file is then left as it was;
    - [write_cut]: for a file that was opened and a text to be written to
      it, how many characters reached the file and the text of the
      exception that stopped the writing, if any;
    - [sleep_raises]: the exception [time.sleep] raises for a duration that
      is a number and not negative (one too large for the clock), if any;
    - [request_raises]: the exception raised while [urllib]'s [Request] is
      built for a URL that has a scheme (when the URL is taken apart for
      its host), if any. *)
Record world := {
  fs : pystr -> file_state;
  have_requests : bool;
  requests_get : Z -> pystr -> strdict -> option strdict -> float -> requests_result;
  urlopen : Z -> pystr -> strdict -> float -> urlopen_result;
  quote : pystr -> pystr;
  ctime : pystr;
  path_str : pystr -> pystr;
  aktif_path : pystr -> pystr + pystr;
  open_w : pystr -> option pystr;
  write_cut : pystr -> pystr -> option (nat * pystr);
  sleep_raises : float -> option pystr;
  request_raises : pystr -> strdict -> option pystr
}.

(** What the program does to the world: a [print] to stdout or stderr, a
    request, a pause, a file created or emptied and left with a content. *)
Inductive event :=
| Print (line : pystr)
| PrintErr (line : pystr)
| RequestsGet (url : pystr) (headers : strdict) (params : option strdict) (timeout : float)
| UrlOpen (url : pystr) (headers : strdict) (timeout : float)
| Sleep (secs : float)
| WriteFile (path : pystr) (content : pystr).

(** ** Computations: a trace of events and how the computation ended *)

(** A computation returns a value, raises an exception that nothing has
    caught (named by its text or, where the text is of no use, by its
    class), or leaves the program through [sys.exit]. *)
Inductive outcome (A : Type) :=
| Ret (a : A)
| Raise (err : pystr)
| Exit (code : Z).
Arguments Ret {A} a.
Arguments Raise {A} err.
Arguments Exit {A} code.

Definition M (A : Type) : Type := list event * outcome A.

Definition ret {A} (a : A) : M A := ([], Ret a).
Definition bind {A B} (m : M A) (f : A -> M B) : M B :=
  match m with
  | (t, Ret a) => let '(t', r) := f a in (t ++ t', r)
  | (t, Raise e) => (t, Raise e)
  | (t, Exit c) => (t, Exit c)
  end.
Definition emit (e : event) : M unit := ([e], Ret tt).
Definition sys_exit {A} (code : Z) : M A := ([], Exit code).
Definition raise {A} (err : pystr) : M A := ([], Raise err).
Definition lift {A} (o : option A) : M A :=
  match o with
  | Some a => ret a
  | None => ([], Raise (str "IndexError"))
  end.

Notation "x <- m ;; k" := (bind m (fun x => k))
  (at level 100, m at next level, right associativity).
Notation "m ;;; k" := (bind m (fun _ => k))
  (at level 100, right associativity).

(** The exit status of the process. *)
Definition exit_status {A} (r : outcome A) : Z :=
  match r with
  | Ret _ => 0
  | Raise _ => 1
  | Exit c => c
  end.

(** [time.sleep(secs)] raises [ValueError] for a duration that is not a
    number or is negative, and may raise for one that is too large. *)
Definition sleep_error (w : world) (secs : float) : option pystr :=
  if PrimFloat.is_nan secs || PrimFloat.ltb secs PrimFloat.zero
  then Some (str "ValueError")
  else sleep_raises w secs.

Definition time_sleep (w : world) (secs : float) : M unit :=
  match sleep_error w secs with
  | Some err => raise err
  | None => emit (Sleep secs)
  end.

(** ** Checking one key *)

Definition auth_headers (m : auth_mode) (key_name key : pystr) : strdict :=
  match m with
  | bearer => [(str "Authorization", str "Bearer " ++ key)]
  | api_key_header => [(key_name, key)]
  | query_key => []
  end.

Definition check_key_requests (w : world) (nth : Z) (endpoint key : pystr)
    (m : auth_mode) (key_name : pystr) (timeout : float)
  : M (option Z * pystr) :=
  let headers := auth_headers m key_name key in
  let params := match m with query_key => Some [(str "key", key)] | _ => None end in
  emit (RequestsGet endpoint headers params timeout) ;;;
  match requests_get w nth endpoint headers params timeout with
  | GetResponse status_code text json_text =>
      ret (Some status_code, match json_text with Some t => t | None => text end)
  | GetRaises err => ret (None, err)
  end.

(** *** Building the request of [urllib]

    [request.Request(url, headers=headers)] stands before the [try]: what
    it raises is not caught.  It unwraps the URL, cuts the fragment off and
    raises [ValueError] when what is left has no scheme, that is when it
    does not start with one or more characters other than [/] and [:]
    followed by a colon. *)

Fixpoint startswith (p s : pystr) : bool :=
  match p, s with
  | [], _ => true
  | c :: p', d :: s' => (c =? d)%N && startswith p' s'
  | _ :: _, [] => false
  end.

(** [unwrap(url)] of [urllib.parse]: white space, [<] and [>] around the
    URL and a prefix [URL:] are taken off. *)
Definition unwrap (url : pystr) : pystr :=
  let u := strip url in
  let u := if startswith_char 60%N u && startswith_char 62%N (rev u)
           then strip (rev (tl (rev (tl u))))
           else u in
  if startswith (str "URL:") u then strip (drop 4 u) else u.

(** What stands before the last [c] of [s], if [c] is in [s]. *)
Fixpoint before_last (c : char) (s : pystr) : option pystr :=
  match s with
  | [] => None
  | d :: s' =>
      match before_last c s' with
      | Some p => Some (d :: p)
      | None => if (d =? c)%N then Some [] else None
      end
  end.

(** The URL without its fragment: [url.rpartition('#')]. *)
Definition splittag (url : pystr) : pystr :=
  match before_last 35%N url with
  | Some path => path
  | None => url
  end.

(** Whether [s] starts with a scheme: one or more characters other than
    [/] and [:], then a colon.  [seen] tells that a character of the scheme
    has been read. *)
Fixpoint has_scheme_from (seen : bool) (s : pystr) : bool :=
  match s with
  | [] => false
  | c :: s' =>
      if (c =? 58)%N then seen
      else if (c =? 47)%N then false
      else has_scheme_from true s'
  end.

Definition has_scheme (s : pystr) : bool := has_scheme_from false s.

Definition request_error (w : world) (url : pystr) (headers : strdict)
  : option pystr :=
  if has_scheme (splittag (unwrap url)) then request_raises w url headers
  else Some (str "ValueError").

Definition check_key_urllib (w : world) (nth : Z) (endpoint key : pystr)
    (m : auth_mode) (key_name : pystr) (timeout : float)
  : M (option Z * pystr) :=
  let headers := auth_headers m key_name key in
  let url :=
    match m with
    | query_key =>
        let sep := if bool_decide (63%N ∈ endpoint) then str "&" else str "?" in
        endpoint ++ sep ++ str "key=" ++ quote w key
    | _ => endpoint
    end in
  match request_error w url headers with
  | Some err => raise err
  | None =>
      emit (UrlOpen url headers timeout) ;;;
      match urlopen w nth url headers timeout with
      | OpenResponse code body => ret (code, body)
      | OpenHTTPError code body err =>
          ret (Some code, match body with Some b => b | None => err end)
      | OpenRaises err => ret (None, err)
      end
  end.

(** ** The validation loop *)

(** The per-key result record. *)
Record result := {
  index : Z;
  key : pystr;
  masked : pystr;
  status : option Z;
  ok : bool;
  note : pystr
}.

(** The per-key debug record. *)
Record debug_line := {
  d_index : Z;
  d_masked : pystr;
  d_status : option Z;
  d_auth_mode : pystr;
  d_body_preview : pystr
}.

(** How a status and a body become [ok] and [note]. *)
Definition classify (st : option Z) (body : pystr) : bool * pystr :=
  match st with
  | None => (false, str "Error: " ++ body)
  | Some c =>
      if c =? 200 then (true, str "Active")
      else if (c =? 401) || (c =? 403) then (false, str "Invalid / Unauthorized")
      else (false, str "HTTP " ++ str_int c)
  end.

Definition body_preview (body : pystr) : option pystr :=
  if (1000 <? length body)%nat then
    b ← getslice body None (Some 1000); Some (b ++ str "...")
  else Some body.

Definition loop_state : Type := list result * list debug_line.

(** One turn of the loop, for the key at position [i] out of [n]. *)
Definition loop_body (w : world) (a : args) (n : Z) (st : loop_state)
    (i : Z) (k : pystr) : M loop_state :=
  let '(results, debug_lines) := st in
  mk <- lift (mask_key k) ;;
  emit (Print (str "[" ++ str_int i ++ str "/" ++ str_int n
               ++ str "] Checking " ++ mk ++ str " ...")) ;;;
  sb <- (if have_requests w
         then check_key_requests w i (arg_endpoint a) k (arg_auth_mode a)
                (arg_key_name a) (arg_timeout a)
         else check_key_urllib w i (arg_endpoint a) k (arg_auth_mode a)
                (arg_key_name a) (arg_timeout a)) ;;
  let '(st_code, body) := sb in
  let '(is_ok, nt) := classify st_code body in
  let results' :=
    results ++ [ {| index := i; key := k; masked := mk; status := st_code;
                    ok := is_ok; note := nt |} ] in
  pv <- lift (body_preview body) ;;
  let debug_lines' :=
    debug_lines ++ [ {| d_index := i; d_masked := mk; d_status := st_code;
                        d_auth_mode := auth_mode_str (arg_auth_mode a);
                        d_body_preview := pv |} ] in
  time_sleep w (arg_delay a) ;;;
  ret (results', debug_lines').

(** [for i, key in enumerate(keys, i): ...] *)
Fixpoint for_keys (w : world) (a : args) (n : Z) (st : loop_state)
    (i : Z) (keys : list pystr) : M loop_state :=
  match keys with
  | [] => ret st
  | k :: keys' =>
      st' <- loop_body w a n st i k ;;
      for_keys w a n st' (i + 1) keys'
  end.

Definition validate (w : world) (a : args) (keys : list pystr) : M loop_state :=
  for_keys w a (Z.of_nat (length keys)) ([], []) 1 keys.

(** ** The report *)

(** The sort key [(0 if r['ok'] else 1, r['index'])] and the order of
    Python tuples of two integers. *)
Definition sort_key (r : result) : Z * Z := (if ok r then 0 else 1, index r).

Definition tuple_lt (a b : Z * Z) : bool :=
  (fst a <? fst b) || ((fst a =? fst b) && (snd a <? snd b)).

(** [sorted(l, key=...)] is a stable sort that compares keys with [<]:
    an element is put before the first one whose key is not smaller than
    its own, so elements with equal keys keep their order. *)
Fixpoint insert_by {A} (f : A -> Z * Z) (x : A) (l : list A) : list A :=
  match l with
  | [] => [x]
  | y :: l' => if tuple_lt (f y) (f x) then y :: insert_by f x l' else x :: l
  end.

Definition sorted {A} (f : A -> Z * Z) (l : list A) : list A :=
  foldr (insert_by f) [] l.

Definition report_line (r : result) : pystr :=
  let status_text := if ok r then str "ACTIVE" else str "INVALID" in
  let code := match status r with Some c => str_int c | None => str "-" end in
  rjust 2 (str_int (index r)) ++ str ". " ++ ljust 20 (masked r) ++ str " | "
  ++ ljust 7 status_text ++ str " | " ++ ljust 5 code ++ str " | " ++ note r.

Fixpoint print_report (rs : list result) : M unit :=
  match rs with
  | [] => ret tt
  | r :: rs' => emit (Print (report_line r)) ;;; print_report rs'
  end.

Definition rule : pystr := replicate 63 45%N.

(** ** The debug log *)

Module Json.

(** The values [json.dump] is given here: [None], [int], [str], lists and
    dicts with string keys (in insertion order). *)
Unset Elimination Schemes.
Inductive json :=
| JNull
| JInt (z : Z)
| JStr (s : pystr)
| JArr (items : list json)
| JObj (members : list (pystr * json)).
Set Elimination Schemes.

Definition hex_digit (d : N) : char :=
  if (d <? 10)%N then (48 + d)%N else (87 + d)%N.

(** One character inside a JSON string, with [ensure_ascii=False]: the
    quote, the backslash and the control characters are escaped. *)
Definition escape_char (c : char) : pystr :=
  if (c =? 34)%N then str "\" ++ [34%N]
  else if (c =? 92)%N then str "\\"
  else if (c =? 8)%N then str "\b"
  else if (c =? 12)%N then str "\f"
  else if (c =? 10)%N then str "\n"
  else if (c =? 13)%N then str "\r"
  else if (c =? 9)%N then str "\t"
  else if (c <? 32)%N then str "\u00" ++ [hex_digit (c / 16); hex_digit (c mod 16)]
  else [c].

Definition encode_basestring (s : pystr) : pystr :=
  [34%N] ++ concat (map escape_char s) ++ [34%N].

Fixpoint join (sep : pystr) (l : list pystr) : pystr :=
  match l with
  | [] => []
  | x :: l' =>
      match l' with
      | [] => x
      | _ => x ++ sep ++ join sep l'
      end
  end.

(** A newline and the indentation of nesting level [lvl], for [indent=2]. *)
Definition newline_indent (lvl : nat) : pystr := LF :: replicate (2 * lvl) SP.

Fixpoint encode (lvl : nat) (v : json) : pystr :=
  match v with
  | JNull => str "null"
  | JInt z => str_int z
  | JStr s => encode_basestring s
  | JArr items =>
      match items with
      | [] => str "[]"
      | _ =>
          str "[" ++ newline_indent (S lvl)
          ++ join (str "," ++ newline_indent (S lvl)) (map (encode (S lvl)) items)
          ++ newline_indent lvl ++ str "]"
      end
  | JObj members =>
      match members with
      | [] => str "{}"
      | _ =>
          str "{" ++ newline_indent (S lvl)
          ++ join (str "," ++ newline_indent (S lvl))
               (map (fun kv => encode_basestring (fst kv) ++ str ": "
                               ++ encode (S lvl) (snd kv)) members)
          ++ newline_indent lvl ++ str "}"
      end
  end.

(** [json.dump(v, fh, indent=2, ensure_ascii=False)] *)
Definition dump (v : json) : pystr := encode 0 v.

End Json.
Import Json.

(** A debug record as the dict it is in the program. *)
Definition debug_json (d : debug_line) : json :=
  JObj [ (str "index", JInt (d_index d));
         (str "masked", JStr (d_masked d));
         (str "status", match d_status d with Some c => JInt c | None => JNull end);
         (str "auth_mode", JStr (d_auth_mode d));
         (str "body_preview", JStr (d_body_preview d)) ].

Definition debug_header (w : world) (a : args) : pystr :=
  str "DEBUG VALIDATION LOG" ++ [LF]
  ++ str "Endpoint: " ++ arg_endpoint a ++ [LF]
  ++ str "Requested at: " ++ ctime w ++ [LF]
  ++ [LF].

(** Everything written to the debug log, in order. *)
Definition debug_log_text (w : world) (a : args) (debug_lines : list debug_line)
  : pystr :=
  debug_header w a ++ dump (JArr (map debug_json debug_lines)) ++ [LF].

(** [with path.open('w') as fh: ...], the writes being those of
    [content]: opening may raise, and leaves the file as it was; once the
    file is open it is empty, and when a write raises it is left with what
    was written until then.  The result is the text of the exception, if
    any. *)
Definition write_text (w : world) (path content : pystr) : M (option pystr) :=
  match open_w w path with
  | Some err => ret (Some err)
  | None =>
      match write_cut w path content with
      | Some (n, err) => emit (WriteFile path (take n content)) ;;; ret (Some err)
      | None => emit (WriteFile path content) ;;; ret None
      end
  end.

(** The exception of a failed write is caught and reported on stderr. *)
Definition write_debug_log (w : world) (a : args) (debug_lines : list debug_line)
  : M unit :=
  let dbgpath := path_str w (arg_debug_log a) in
  r <- write_text w dbgpath (debug_log_text w a debug_lines) ;;
  match r with
  | None => emit (Print (str "Debug log written to: " ++ dbgpath))
  | Some err => emit (PrintErr (str "Failed to write debug log: " ++ err))
  end.

(** ** The active keys *)

Fixpoint aktif_text (rs : list result) : pystr :=
  match rs with
  | [] => []
  | r :: rs' =>
      if ok r then key r ++ str "," ++ [LF] ++ aktif_text rs'
      else aktif_text rs'
  end.

Definition write_aktif (w : world) (a : args) (results_sorted : list result)
  : M unit :=
  match aktif_path w (arg_file a) with
  | inr err => emit (PrintErr (str "Failed to write aktif.txt: " ++ err))
  | inl p =>
      r <- write_text w p (aktif_text results_sorted) ;;
      match r with
      | None => emit (Print (str "Active keys written to: " ++ p))
      | Some err => emit (PrintErr (str "Failed to write aktif.txt: " ++ err))
      end
  end.

(** ** The program *)

Definition main (w : world) (a : args) : M unit :=
  match read_keys (fs w) (arg_file a) with
  | inr e => emit (PrintErr (str "Error: " ++ e)) ;;; sys_exit 2
  | inl keys =>
      match keys with
      | [] => emit (Print (str "No keys found in " ++ arg_file a)) ;;; sys_exit 0
      | _ =>
          st <- validate w a keys ;;
          let '(results, debug_lines) := st in
          let results_sorted := sorted sort_key results in
          emit (Print ([LF] ++ str "Validation results (top -> bottom):")) ;;;
          emit (Print rule) ;;;
          print_report results_sorted ;;;
          emit (Print rule) ;;;
          write_debug_log w a debug_lines ;;;
          write_aktif w a results_sorted
      end
  end.

(** *** A sample run *)

Module Sample.
Import PrimFloat.

Definition keys_text : pystr :=
  str "# my keys" ++ [LF] ++ str "  AIzaSyD-GOODKEY-0001  " ++ [CR; LF]
  ++ [LF] ++ str "short" ++ [LF] ++ str "AIzaSyD-GOODKEY-0003" ++ [LF].

Definition sample_args : args :=
  {| arg_file := str "api.txt";
     arg_endpoint := str "https://generativelanguage.googleapis.com/v1/models";
     arg_auth_mode := query_key;
     arg_key_name := str "x-goog-api-key";
     arg_delay := 0.5%float;
     arg_debug_log := str "validasi_debug.log";
     arg_timeout := 10%float |}.

(** The second key is refused, the others are accepted. *)
Definition sample_world : world :=
  {| fs := fun p => if bool_decide (p = str "api.txt") then Holds keys_text else Absent;
     have_requests := true;
     requests_get := fun nth _ _ _ _ =>
       if nth =? 2 then GetResponse 403 (str "denied") None
       else GetResponse 200 (str "{}") (Some (str "{}"));
     urlopen := fun _ _ _ _ => OpenRaises (str "unreachable");
     quote := fun s => s;
     ctime := str "Tue Nov  3 10:31:00 2026";
     path_str := fun p => p;
     aktif_path := fun _ => inl (str "/home/u/aktif.txt");
     open_w := fun _ => None;
     write_cut := fun _ _ => None;
     sleep_raises := fun _ => None;
     request_raises := fun _ _ => None |}.

Definition empty_world : world :=
  {| fs := fun p => Holds (str "# nothing here" ++ [LF] ++ str "   " ++ [LF]);
     have_requests := true;
     requests_get := requests_get sample_world;
     urlopen := urlopen sample_world;
     quote := quote sample_world;
     ctime := ctime sample_world;
     path_str := path_str sample_world;
     aktif_path := aktif_path sample_world;
     open_w := open_w sample_world;
     write_cut := write_cut sample_world;
     sleep_raises := sleep_raises sample_world;
     request_raises := request_raises sample_world |}.

(** The same command line with a negative delay, and one without a scheme
    in its endpoint. *)
Definition hasty_args : args :=
  {| arg_file := arg_file sample_args;
     arg_endpoint := arg_endpoint sample_args;
     arg_auth_mode := arg_auth_mode sample_args;
     arg_key_name := arg_key_name sample_args;
     arg_delay := (-10)%float;
     arg_debug_log := arg_debug_log sample_args;
     arg_timeout := arg_timeout sample_args |}.


(** A key file that lists one key twice: it is accepted the first time and
    refused the second time. *)
Definition twice_world : world :=
  {| fs := fun p => Holds (str "AIzaSyD-GOODKEY-0001" ++ [LF]
                           ++ str "AIzaSyD-GOODKEY-0001" ++ [LF]);
     have_requests := true;
     requests_get := requests_get sample_world;
     urlopen := urlopen sample_world;
     quote := quote sample_world;
     ctime := ctime sample_world;
     path_str := path_str sample_world;
     aktif_path := aktif_path sample_world;
     open_w := open_w sample_world;
     write_cut := write_cut sample_world;
     sleep_raises := sleep_raises sample_world;
     request_raises := request_raises sample_world |}.

End Sample.

(** ** Notions used in the statements *)

(** The first and the last [n] characters of a string (all of it when it
    has fewer than [n]). *)
Definition first_chars (n : nat) (k : pystr) : pystr := take n k.
Definition last_chars (n : nat) (k : pystr) : pystr := drop (length k - n) k.

(** The mask as a text. *)
Definition mask_text (k : pystr) : pystr :=
  if (length k <=? 10)%nat
  then first_chars 2 k ++ str "..." ++ last_chars 2 k
  else first_chars 4 k ++ str "..." ++ last_chars 4 k.

(** A line is blank when nothing is left of it after stripping, and a
    comment when its stripped form starts with [#]. *)
Definition is_blank (line : pystr) : bool :=
  match strip line with [] => true | _ => false end.
Definition is_comment (line : pystr) : bool := startswith_char 35%N (strip line).
Definition kept (line : pystr) : bool := negb (is_blank line) && negb (is_comment line).

(** Events that reach the network, and events that write a file. *)
Definition is_request (e : event) : bool :=
  match e with
  | RequestsGet _ _ _ _ | UrlOpen _ _ _ => true
  | _ => false
  end.
Definition is_write (e : event) : bool :=
  match e with
  | WriteFile _ _ => true
  | _ => false
  end.

(** A key file with spaces around its only key, and a missing key file. *)
Definition padded_text : pystr := str "  AIzaSyD-GOODKEY-0001  " ++ [LF].
Definition padded_fs (p : pystr) : file_state := Holds padded_text.
Definition missing_world : world :=
  {| fs := fun _ => Absent;
     have_requests := have_requests Sample.sample_world;
     requests_get := requests_get Sample.sample_world;
     urlopen := urlopen Sample.sample_world;
     quote := quote Sample.sample_world;
     ctime := ctime Sample.sample_world;
     path_str := path_str Sample.sample_world;
     aktif_path := aktif_path Sample.sample_world;
     open_w := open_w Sample.sample_world;
     write_cut := write_cut Sample.sample_world;
     sleep_raises := sleep_raises Sample.sample_world;
     request_raises := request_raises Sample.sample_world |}.

(** The URL [check_key_urllib] opens for key [k]. *)
Definition urllib_url (w : world) (a : args) (k : pystr) : pystr :=
  match arg_auth_mode a with
  | query_key =>
      arg_endpoint a
      ++ (if bool_decide (63%N ∈ arg_endpoint a) then str "&" else str "?")
      ++ str "key=" ++ quote w k
  | _ => arg_endpoint a
  end.

(** Whether the request for key [k] can be sent at all ([requests] is
    there, or [urllib]'s [Request] can be built), whether the turn of the
    loop for [k] comes to its end (the pause is also one [time.sleep]
    accepts), and whether the loop over [keys] does. *)
Definition can_check (w : world) (a : args) (k : pystr) : bool :=
  have_requests w
  || match request_error w (urllib_url w a k)
             (auth_headers (arg_auth_mode a) (arg_key_name a) k) with
     | None => true
     | Some _ => false
     end.

Definition turn_completes (w : world) (a : args) (k : pystr) : bool :=
  can_check w a k
  && match sleep_error w (arg_delay a) with None => true | Some _ => false end.

Definition loop_completes (w : world) (a : args) (keys : list pystr) : bool :=
  forallb (turn_completes w a) keys.

(** The call of the loop that checks key [k] at position [i], and what it
    returns: a status ([None] when the request raised) and a body. *)
Definition check_key (w : world) (a : args) (i : Z) (k : pystr)
  : M (option Z * pystr) :=
  if have_requests w
  then check_key_requests w i (arg_endpoint a) k (arg_auth_mode a)
         (arg_key_name a) (arg_timeout a)
  else check_key_urllib w i (arg_endpoint a) k (arg_auth_mode a)
         (arg_key_name a) (arg_timeout a).

Definition answer (w : world) (a : args) (i : Z) (k : pystr) : option Z * pystr :=
  match snd (check_key w a i k) with
  | Ret sb => sb
  | _ => (None, [])
  end.

(** The records one turn of the loop appends. *)
Definition result_for (w : world) (a : args) (i : Z) (k : pystr) : result :=
  let sb := answer w a i k in
  let c := classify (fst sb) (snd sb) in
  {| index := i; key := k; masked := mask_text k; status := fst sb;
     ok := fst c; note := snd c |}.

Definition preview_text (body : pystr) : pystr :=
  if (1000 <? length body)%nat then take 1000 body ++ str "..." else body.

Definition debug_for (w : world) (a : args) (i : Z) (k : pystr) : debug_line :=
  {| d_index := i; d_masked := mask_text k; d_status := fst (answer w a i k);
     d_auth_mode := auth_mode_str (arg_auth_mode a);
     d_body_preview := preview_text (snd (answer w a i k)) |}.

Fixpoint results_from (w : world) (a : args) (i : Z) (keys : list pystr)
  : list result :=
  match keys with
  | [] => []
  | k :: keys' => result_for w a i k :: results_from w a (i + 1) keys'
  end.

Fixpoint debug_from (w : world) (a : args) (i : Z) (keys : list pystr)
  : list debug_line :=
  match keys with
  | [] => []
  | k :: keys' => debug_for w a i k :: debug_from w a (i + 1) keys'
  end.

(** The two lists the loop ends with (empty if it did not end normally). *)
Definition results_of (m : M loop_state) : list result :=
  match snd m with
  | Ret st => fst st
  | _ => []
  end.
Definition debug_lines_of (m : M loop_state) : list debug_line :=
  match snd m with
  | Ret st => snd st
  | _ => []
  end.

(** One line of the active-keys file. *)
Definition key_line (k : pystr) : pystr := k ++ str "," ++ [LF].

(** [x] may stand before [y] in a list sorted by [f]: the key of [y] is not
    smaller than that of [x]. *)
Definition before {A} (f : A -> Z * Z) (x y : A) : Prop :=
  tuple_lt (f y) (f x) = false.

(** Orders on result records. *)
Definition index_lt (r1 r2 : result) : Prop := index r1 < index r2.
Definition key_le (r1 r2 : result) : Prop := before sort_key r1 r2.


(** Three records, given out of order. *)
Definition result_one : result :=
  {| index := 1; key := str "k1"; masked := str "k1...k1"; status := Some 403;
     ok := false; note := str "Invalid / Unauthorized" |}.
Definition result_two : result :=
  {| index := 2; key := str "k2"; masked := str "k2...k2"; status := Some 200;
     ok := true; note := str "Active" |}.
Definition result_three : result :=
  {| index := 3; key := str "k3"; masked := str "k3...k3"; status := Some 200;
     ok := true; note := str "Active" |}.
Definition three_results : list result := [result_one; result_three; result_two].

(** *** Reading JSON back

    A reader of JSON texts for the values above: [null], integers, strings
    with their escapes, arrays and objects, with white space between the
    tokens.  The nesting is followed with [fuel]. *)

Module JsonRead.

Definition is_ws (c : char) : bool :=
  ((c =? 32) || (c =? 10) || (c =? 13) || (c =? 9))%N.

Fixpoint skip_ws (s : pystr) : pystr :=
  match s with
  | c :: s' => if is_ws c then skip_ws s' else s
  | [] => []
  end.

Definition is_digit (c : char) : bool := ((48 <=? c) && (c <=? 57))%N.

Definition digit_cons (d : N) (u : Decimal.uint) : Decimal.uint :=
  match d with
  | 0%N => Decimal.D0 u
  | 1%N => Decimal.D1 u
  | 2%N => Decimal.D2 u
  | 3%N => Decimal.D3 u
  | 4%N => Decimal.D4 u
  | 5%N => Decimal.D5 u
  | 6%N => Decimal.D6 u
  | 7%N => Decimal.D7 u
  | 8%N => Decimal.D8 u
  | _ => Decimal.D9 u
  end.

(** The digits a text starts with, and what follows them. *)
Fixpoint read_digits (s : pystr) : Decimal.uint * pystr :=
  match s with
  | c :: s' =>
      if is_digit c
      then let '(u, rest) := read_digits s' in (digit_cons (c - 48) u, rest)
      else (Decimal.Nil, s)
  | [] => (Decimal.Nil, [])
  end.

Definition read_nat (s : pystr) : option (Z * pystr) :=
  match read_digits s with
  | (Decimal.Nil, _) => None
  | (u, rest) => Some (Z.of_N (N.of_uint u), rest)
  end.

Definition read_int (s : pystr) : option (Z * pystr) :=
  match s with
  | c :: s' =>
      if (c =? 45)%N
      then match read_nat s' with
           | Some (n, rest) => Some (- n, rest)
           | None => None
           end
      else read_nat s
  | [] => None
  end.

Definition hex_value (c : char) : option N :=
  if is_digit c then Some (c - 48)%N
  else if ((97 <=? c) && (c <=? 102))%N then Some (c - 87)%N
  else if ((65 <=? c) && (c <=? 70))%N then Some (c - 55)%N
  else None.

Definition hex4 (h1 h2 h3 h4 : char) : option char :=
  match hex_value h1, hex_value h2, hex_value h3, hex_value h4 with
  | Some x1, Some x2, Some x3, Some x4 =>
      Some (((x1 * 16 + x2) * 16 + x3) * 16 + x4)%N
  | _, _, _, _ => None
  end.

(** The character a backslash and [c] stand for. *)
Definition unescape (c : char) : option char :=
  if (c =? 34)%N then Some 34%N
  else if (c =? 92)%N then Some 92%N
  else if (c =? 47)%N then Some 47%N
  else if (c =? 98)%N then Some 8%N
  else if (c =? 102)%N then Some 12%N
  else if (c =? 110)%N then Some 10%N
  else if (c =? 114)%N then Some 13%N
  else if (c =? 116)%N then Some 9%N
  else None.

Definition cons_fst (c : char) (r : option (pystr * pystr)) : option (pystr * pystr) :=
  match r with
  | Some (t, rest) => Some (c :: t, rest)
  | None => None
  end.

(** The characters of a string, after its opening quote and up to its
    closing quote. *)
Fixpoint read_chars (s : pystr) : option (pystr * pystr) :=
  match s with
  | [] => None
  | c :: s1 =>
      if (c =? 34)%N then Some ([], s1)
      else if (c =? 92)%N then
        match s1 with
        | e :: s2 =>
            if (e =? 117)%N then
              match s2 with
              | h1 :: h2 :: h3 :: h4 :: s3 =>
                  match hex4 h1 h2 h3 h4 with
                  | Some d => cons_fst d (read_chars s3)
                  | None => None
                  end
              | _ => None
              end
            else
              match unescape e with
              | Some d => cons_fst d (read_chars s2)
              | None => None
              end
        | [] => None
        end
      else if (c <? 32)%N then None
      else cons_fst c (read_chars s1)
  end.

Fixpoint strip_prefix (p s : pystr) : option pystr :=
  match p, s with
  | [], _ => Some s
  | c :: p', d :: s' => if (c =? d)%N then strip_prefix p' s' else None
  | _ :: _, [] => None
  end.

Fixpoint read_value (fuel : nat) (s : pystr) {struct fuel} : option (json * pystr) :=
  match fuel with
  | O => None
  | S fuel' =>
      match skip_ws s with
      | [] => None
      | c :: s1 =>
          if (c =? 110)%N then
            match strip_prefix (str "ull") s1 with
            | Some rest => Some (JNull, rest)
            | None => None
            end
          else if (c =? 34)%N then
            match read_chars s1 with
            | Some (t, rest) => Some (JStr t, rest)
            | None => None
            end
          else if (c =? 91)%N then
            match skip_ws s1 with
            | d :: s2 =>
                if (d =? 93)%N then Some (JArr [], s2)
                else match read_items fuel' s1 with
                     | Some (items, rest) => Some (JArr items, rest)
                     | None => None
                     end
            | [] => None
            end
          else if (c =? 123)%N then
            match skip_ws s1 with
            | d :: s2 =>
                if (d =? 125)%N then Some (JObj [], s2)
                else match read_members fuel' s1 with
                     | Some (members, rest) => Some (JObj members, rest)
                     | None => None
                     end
            | [] => None
            end
          else
            match read_int (c :: s1) with
            | Some (z, rest) => Some (JInt z, rest)
            | None => None
            end
      end
  end
with read_items (fuel : nat) (s : pystr) {struct fuel} : option (list json * pystr) :=
  match fuel with
  | O => None
  | S fuel' =>
      match read_value fuel' s with
      | Some (v, rest) =>
          match skip_ws rest with
          | c :: rest' =>
              if (c =? 44)%N then
                match read_items fuel' rest' with
                | Some (vs, rest'') => Some (v :: vs, rest'')
                | None => None
                end
              else if (c =? 93)%N then Some ([v], rest')
              else None
          | [] => None
          end
      | None => None
      end
  end
with read_members (fuel : nat) (s : pystr) {struct fuel}
  : option (list (pystr * json) * pystr) :=
  match fuel with
  | O => None
  | S fuel' =>
      match skip_ws s with
      | q :: s1 =>
          if (q =? 34)%N then
            match read_chars s1 with
            | Some (k, rest) =>
                match skip_ws rest with
                | c :: rest1 =>
                    if (c =? 58)%N then
                      match read_value fuel' rest1 with
                      | Some (v, rest2) =>
                          match skip_ws rest2 with
                          | d :: rest3 =>
                              if (d =? 44)%N then
                                match read_members fuel' rest3 with
                                | Some (ms, rest4) => Some ((k, v) :: ms, rest4)
                                | None => None
                                end
                              else if (d =? 125)%N then Some ([(k, v)], rest3)
                              else None
                          | [] => None
                          end
                      | None => None
                      end
                    else None
                | [] => None
                end
            | None => None
            end
          else None
      | [] => None
      end
  end.

(** [json.loads]: the whole text is one value, with at most white space
    after it.  No value nests deeper than the text is long. *)
Definition loads (s : pystr) : option json :=
  match read_value (S (length s)) s with
  | Some (v, rest) =>
      match skip_ws rest with
      | [] => Some v
      | _ => None
      end
  | None => None
  end.

End JsonRead.
Import JsonRead.

(** The number of values and list cells of a value: enough fuel to read
    its text back. *)
Fixpoint size (v : json) : nat :=
  match v with
  | JArr items => S (list_sum (map (fun x => S (size x)) items))
  | JObj members => S (list_sum (map (fun kv => S (size (snd kv))) members))
  | _ => 1
  end.

(** The text of one member of an object. *)
Definition member_text (lvl : nat) (kv : pystr * json) : pystr :=
  encode_basestring (fst kv) ++ str ": " ++ encode lvl (snd kv).

(** A text that does not go on with a digit. *)
Definition no_digit (s : pystr) : bool :=
  match s with
  | c :: _ => negb (is_digit c)
  | [] => true
  end.

(** The debug lines of the sample run, and its debug log. *)
Definition sample_debug_lines : list debug_line :=
  debug_lines_of (validate Sample.sample_world Sample.sample_args
    [str "AIzaSyD-GOODKEY-0001"; str "short"; str "AIzaSyD-GOODKEY-0003"]).
Definition sample_debug_log : pystr :=
  debug_log_text Sample.sample_world Sample.sample_args sample_debug_lines.

(** *** Notions for the further properties *)

(** The progress line of key [k] at position [i] out of [n]. *)
Definition progress_line (n i : Z) (k : pystr) : pystr :=
  str "[" ++ str_int i ++ str "/" ++ str_int n ++ str "] Checking "
  ++ mask_text k ++ str " ...".

(** What the loop does to the world, key by key. *)
Fixpoint loop_events (w : world) (a : args) (n i : Z) (keys : list pystr)
  : list event :=
  match keys with
  | [] => []
  | k :: keys' =>
      Print (progress_line n i k) :: fst (check_key w a i k)
      ++ Sleep (arg_delay a) :: loop_events w a n (i + 1) keys'
  end.

(** A string without white space at either end. *)
Definition trimmed (s : pystr) : Prop :=
  match s with c :: _ => is_space c = false | [] => True end
  /\ match rev s with c :: _ => is_space c = false | [] => True end.

(** A key as [read_keys] hands it out: not empty, no white space at
    either end, no [#] in front, no line boundary inside. *)
Definition clean_key (k : pystr) : Prop :=
  k <> [] /\ trimmed k /\ startswith_char 35%N k = false
  /\ Forall (fun c => is_linebreak c = false) k.

(** Equality of two sort keys. *)
Definition tuple_eqb (x y : Z * Z) : bool :=
  (fst x =? fst y) && (snd x =? snd y).


Definition readonly_world : world :=
  {| fs := fs Sample.sample_world;
     have_requests := have_requests Sample.sample_world;
     requests_get := requests_get Sample.sample_world;
     urlopen := urlopen Sample.sample_world;
     quote := quote Sample.sample_world;
     ctime := ctime Sample.sample_world;
     path_str := path_str Sample.sample_world;
     aktif_path := aktif_path Sample.sample_world;
     open_w := fun _ => Some (str "Permission denied");
     write_cut := write_cut Sample.sample_world;
     sleep_raises := sleep_raises Sample.sample_world;
     request_raises := request_raises Sample.sample_world |}.

Definition sample_keys : list pystr :=
  [str "AIzaSyD-GOODKEY-0001"; str "short"; str "AIzaSyD-GOODKEY-0003"].

(** * Properties *)

(** ** Sanity checks of the embedding *)

Example mask_key_short : mask_key (str "abcdefg") = Some (str "ab...fg").
Proof. reflexivity. Qed.
Example mask_key_long : mask_key (str "AIzaSyD-1234567") = Some (str "AIza...4567").
Proof. reflexivity. Qed.
Example mask_key_one : mask_key (str "a") = Some (str "a...a").
Proof. reflexivity. Qed.
Example classify_429 : classify (Some 429) (str "quota") = (false, str "HTTP 429").
Proof. reflexivity. Qed.
Example classify_raised :
  classify None (str "timed out") = (false, str "Error: timed out").
Proof. reflexivity. Qed.
Example report_line_ex :
  report_line result_two
  = str " 2. k2...k2              | ACTIVE  | 200   | Active".
Proof. reflexivity. Qed.
Example sorted_ex :
  sorted sort_key three_results = [result_two; result_three; result_one].
Proof. reflexivity. Qed.
Example read_keys_ex :
  read_keys (fs Sample.sample_world) (str "api.txt")
  = inl [str "AIzaSyD-GOODKEY-0001"; str "short"; str "AIzaSyD-GOODKEY-0003"].
Proof. reflexivity. Qed.
Example splitlines_ex :
  splitlines (str "a" ++ [CR; LF; LF] ++ str "b" ++ [LF]) = [str "a"; []; str "b"].
Proof. reflexivity. Qed.

(** ** Slices and the mask *)

Lemma chars_from_take_drop (s : pystr) (n pos : nat) :
  (pos + n <= length s)%nat ->
  chars_from s pos n = Some (take n (drop pos s)).
Proof.
  revert pos. induction n as [|n IH]; intros pos Hlen; cbn [chars_from].
  - by rewrite take_0.
  - destruct (lookup_lt_is_Some_2 s pos) as [c Hc]; [lia|].
    rewrite Hc, (IH (S pos)) by lia.
    by rewrite (drop_S _ _ _ Hc).
Qed.

(** [s[:j]] for a literal [j >= 0]: the first [j] characters, or all of
    them when there are fewer. *)
Lemma getslice_prefix (s : pystr) (j : nat) :
  getslice s None (Some (Z.of_nat j)) = Some (take j s).
Proof.
  unfold getslice, adjust_index.
  destruct (Z.ltb_spec (Z.of_nat j) 0) as [?|_]; [lia|].
  destruct (Z.leb_spec (Z.of_nat (length s)) (Z.of_nat j)) as [Hle|Hlt];
    rewrite chars_from_take_drop by lia;
    change (Z.to_nat 0) with 0%nat; rewrite drop_0, ?Z.sub_0_r, Nat2Z.id.
  - by rewrite !take_ge by lia.
  - done.
Qed.

(** [s[-j:]] for a literal [j > 0]: the last [j] characters, or all of
    them when there are fewer. *)
Lemma getslice_suffix (s : pystr) (j : nat) :
  (0 < j)%nat ->
  getslice s (Some (- Z.of_nat j)) None = Some (drop (length s - j) s).
Proof.
  intros Hj. unfold getslice, adjust_index.
  destruct (Z.ltb_spec (- Z.of_nat j) 0) as [_|?]; [|lia].
  destruct (Z.ltb_spec (- Z.of_nat j + Z.of_nat (length s)) 0) as [Hlt|Hge];
    rewrite chars_from_take_drop by lia.
  - change (Z.to_nat 0) with 0%nat.
    replace (length s - j)%nat with 0%nat by lia.
    by rewrite drop_0, take_ge by lia.
  - replace (Z.to_nat (- Z.of_nat j + Z.of_nat (length s)))
      with (length s - j)%nat by lia.
    by rewrite take_ge by (rewrite length_drop; lia).
Qed.


Lemma mask_key_text (k : pystr) : mask_key k = Some (mask_text k).
Proof.
  unfold mask_key, mask_text, first_chars, last_chars.
  change 2 with (Z.of_nat 2). change 4 with (Z.of_nat 4).
  change (-2) with (- Z.of_nat 2). change (-4) with (- Z.of_nat 4).
  rewrite !getslice_prefix, !getslice_suffix by lia.
  by destruct (length k <=? 10)%nat.
Qed.

(** C3: [mask_key k] is the first 2 characters of [k], three dots and the
    last 2 characters of [k] when [k] has at most 10 characters, and the
    first 4, three dots and the last 4 when it has more than 10. *)
Theorem mask_key_shows (k : pystr) :
  ((length k <= 10)%nat ->
     mask_key k = Some (first_chars 2 k ++ str "..." ++ last_chars 2 k))
  /\ ((10 < length k)%nat ->
     mask_key k = Some (first_chars 4 k ++ str "..." ++ last_chars 4 k)).
Proof.
  rewrite mask_key_text. unfold mask_text.
  split; intros Hlen.
  - by rewrite (proj2 (Nat.leb_le _ _) Hlen).
  - by rewrite (proj2 (Nat.leb_gt _ _) Hlen).
Qed.

Lemma mask_key_shows_witness :
  mask_key (str "abcdefghij") = Some (str "ab...ij")
  /\ mask_key (str "abcdefghijk") = Some (str "abcd...hijk").
Proof.
  split.
  - apply (proj1 (mask_key_shows (str "abcdefghij"))). simpl. lia.
  - apply (proj2 (mask_key_shows (str "abcdefghijk"))). simpl. lia.
Defined.

(** C9: [mask_key] returns a mask for every string, also for the empty
    one, and the mask of a key of at most 4 characters contains every
    character of the key. *)
Theorem mask_key_total_short_exposed (k : pystr) :
  is_Some (mask_key k)
  /\ ((length k <= 4)%nat ->
      forall m, mask_key k = Some m -> forall c, c ∈ k -> c ∈ m).
Proof.
  rewrite mask_key_text. split; [by eexists|].
  intros Hlen m [= <-] c Hc.
  unfold mask_text, first_chars, last_chars.
  rewrite (proj2 (Nat.leb_le _ _)) by lia.
  apply list_elem_of_lookup in Hc as [i Hi].
  pose proof (lookup_lt_Some _ _ _ Hi) as Hlt.
  rewrite !elem_of_app.
  destruct (decide (i < 2)%nat) as [Hi2|Hi2].
  - left. apply list_elem_of_lookup. exists i.
    by rewrite lookup_take_lt.
  - right. right. apply list_elem_of_lookup. exists (i - (length k - 2))%nat.
    rewrite lookup_drop. rewrite <- Hi. f_equal. lia.
Qed.

Lemma mask_key_total_short_exposed_witness :
  is_Some (mask_key [])
  /\ forall c, c ∈ str "abc" -> c ∈ str "ab...bc".
Proof.
  split.
  - apply (proj1 (mask_key_total_short_exposed [])).
  - apply (proj2 (mask_key_total_short_exposed (str "abc"))).
    + simpl. lia.
    + reflexivity.
Defined.

(** ** Reading the key file *)

Lemma read_keys_loop_filter (lines keys : list pystr) :
  read_keys_loop keys lines = keys ++ map strip (List.filter kept lines).
Proof.
  revert keys. induction lines as [|line lines IH]; intros keys; simpl.
  - by rewrite app_nil_r.
  - unfold kept, is_blank, is_comment.
    destruct (strip line) as [|c s] eqn:Hs; simpl.
    + apply IH.
    + destruct (c =? 35)%N; simpl.
      * apply IH.
      * rewrite IH, Hs. by rewrite <- app_assoc.
Qed.

(** C7, as stated, fails: a key written with spaces around it is returned
    without them, so what is returned is not the line of the file. *)
Lemma read_keys_raw_lines_counterexample :
  read_keys padded_fs (str "api.txt") = inl [str "AIzaSyD-GOODKEY-0001"]
  /\ List.filter kept (splitlines padded_text) = [str "  AIzaSyD-GOODKEY-0001  "]
  /\ read_keys padded_fs (str "api.txt")
     <> inl (List.filter kept (splitlines padded_text)).
Proof. split; [reflexivity|]. split; [reflexivity|]. vm_compute. discriminate. Qed.

(** C7, amended: [read_keys] returns exactly the stripped forms of the
    lines of the file, in file order, leaving out every blank line and
    every line whose stripped form starts with [#]. *)
Theorem read_keys_stripped_lines (fs : pystr -> file_state) (path text : pystr) :
  fs path = Holds text ->
  read_keys fs path = inl (map strip (List.filter kept (splitlines text))).
Proof.
  intros Hfs. unfold read_keys. rewrite Hfs.
  by rewrite read_keys_loop_filter.
Qed.

Lemma read_keys_stripped_lines_witness :
  read_keys padded_fs (str "api.txt") = inl [str "AIzaSyD-GOODKEY-0001"].
Proof.
  apply (read_keys_stripped_lines padded_fs (str "api.txt") padded_text).
  reflexivity.
Defined.

(** ** The two early exits *)

(** C8: when the key file does not exist the program reports it on stderr
    and ends with exit status 2; nothing is requested and nothing is
    written. *)
Theorem missing_key_file_is_fatal (w : world) (a : args) :
  fs w (arg_file a) = Absent ->
  main w a = ([PrintErr (str "Error: Key file not found: " ++ arg_file a)], Exit 2)
  /\ exit_status (snd (main w a)) <> 0
  /\ Forall (fun e => is_request e = false /\ is_write e = false) (fst (main w a)).
Proof.
  intros Hfs.
  assert (Hmain : main w a
            = ([PrintErr (str "Error: Key file not found: " ++ arg_file a)], Exit 2)).
  { unfold main, read_keys. rewrite Hfs. reflexivity. }
  rewrite Hmain. simpl. repeat split; [lia|].
  by repeat constructor.
Qed.

Lemma missing_key_file_is_fatal_witness :
  exit_status (snd (main missing_world Sample.sample_args)) <> 0.
Proof.
  apply (missing_key_file_is_fatal missing_world Sample.sample_args).
  reflexivity.
Defined.

(** C10: when no key is left after parsing, the program prints
    [No keys found in <file>] and ends with exit status 0; nothing is
    requested and no file is written. *)
Theorem no_keys_exits_zero (w : world) (a : args) :
  read_keys (fs w) (arg_file a) = inl [] ->
  main w a = ([Print (str "No keys found in " ++ arg_file a)], Exit 0)
  /\ exit_status (snd (main w a)) = 0
  /\ Forall (fun e => is_request e = false /\ is_write e = false) (fst (main w a)).
Proof.
  intros Hkeys.
  assert (Hmain : main w a
            = ([Print (str "No keys found in " ++ arg_file a)], Exit 0)).
  { unfold main. rewrite Hkeys. reflexivity. }
  rewrite Hmain. simpl. repeat split.
  by repeat constructor.
Qed.

Lemma no_keys_exits_zero_witness :
  main Sample.empty_world Sample.sample_args
  = ([Print (str "No keys found in api.txt")], Exit 0).
Proof.
  apply (no_keys_exits_zero Sample.empty_world Sample.sample_args).
  reflexivity.
Defined.

(** ** Running the loop *)

Section Loop.

Variables (w : world) (a : args).

Lemma bind_ret {A B} (t : list event) (x : A) (f : A -> M B) :
  bind (t, Ret x) f = (t ++ fst (f x), snd (f x)).
Proof. unfold bind. by destruct (f x). Qed.

Lemma check_key_run (i : Z) (k : pystr) :
  can_check w a k = true ->
  exists e, is_request e = true /\ check_key w a i k = ([e], Ret (answer w a i k)).
Proof.
  unfold can_check, answer, check_key, check_key_requests, check_key_urllib.
  fold (urllib_url w a k).
  destruct (have_requests w); cbn [orb].
  - intros _. eexists. split; [|unfold emit; rewrite bind_ret].
    2:{ simpl. destruct (requests_get _ _ _ _ _ _); reflexivity. }
    reflexivity.
  - destruct (request_error _ _ _); [done|]. intros _.
    eexists. split; [|unfold emit; rewrite bind_ret].
    2:{ simpl. destruct (urlopen _ _ _ _ _); reflexivity. }
    reflexivity.
Qed.

Lemma check_key_raise (i : Z) (k : pystr) :
  can_check w a k = false -> exists err, check_key w a i k = ([], Raise err).
Proof.
  unfold can_check, check_key, check_key_urllib. fold (urllib_url w a k).
  destruct (have_requests w); cbn [orb]; [done|].
  destruct (request_error _ _ _) as [err|]; [|done]. intros _. by exists err.
Qed.

Lemma body_preview_text (body : pystr) :
  body_preview body = Some (preview_text body).
Proof.
  unfold body_preview, preview_text.
  destruct (1000 <? length body)%nat; [|done].
  change 1000 with (Z.of_nat 1000). by rewrite getslice_prefix.
Qed.

Lemma bind_raise {A B} (t : list event) (err : pystr) (f : A -> M B) :
  bind (t, Raise err) f = (t, Raise err).
Proof. reflexivity. Qed.

Lemma loop_body_run (n i : Z) (k : pystr) (rs : list result) (ds : list debug_line) :
  turn_completes w a k = true ->
  exists t,
    loop_body w a n (rs, ds) i k
    = (t, Ret (rs ++ [result_for w a i k], ds ++ [debug_for w a i k]))
    /\ length (List.filter is_request t) = 1%nat.
Proof.
  intros Hturn. apply andb_true_iff in Hturn as [Hcheck Hsleep].
  destruct (check_key_run i k Hcheck) as (e & He & Hrun).
  unfold loop_body. rewrite mask_key_text. unfold lift, ret, emit.
  rewrite !bind_ret. cbn beta.
  fold (check_key w a i k). rewrite Hrun, bind_ret.
  unfold result_for, debug_for.
  destruct (answer w a i k) as [st body]. cbn [fst snd].
  destruct (classify st body) as [is_ok nt]. cbn [fst snd].
  rewrite body_preview_text, bind_ret. unfold time_sleep.
  destruct (sleep_error w (arg_delay a)); [done|].
  unfold emit. rewrite bind_ret. cbn [fst snd app].
  eexists. split; [reflexivity|].
  cbn [List.filter is_request]. by rewrite He.
Qed.

Lemma loop_body_raise (n i : Z) (k : pystr) (st : loop_state) :
  turn_completes w a k = false ->
  exists t err,
    loop_body w a n st i k = (t, Raise err)
    /\ (length (List.filter is_request t) <= 1)%nat.
Proof.
  intros Hturn. destruct st as [rs ds].
  unfold loop_body. rewrite mask_key_text. unfold lift, ret, emit.
  rewrite !bind_ret. cbn beta. fold (check_key w a i k).
  destruct (can_check w a k) eqn:Hcheck.
  - destruct (check_key_run i k Hcheck) as (e & He & Hrun).
    rewrite Hrun, bind_ret.
    destruct (answer w a i k) as [st body]. cbn [fst snd].
    destruct (classify st body) as [is_ok nt].
    rewrite body_preview_text, bind_ret. unfold time_sleep.
    unfold turn_completes in Hturn. rewrite Hcheck in Hturn. cbn [andb] in Hturn.
    destruct (sleep_error w (arg_delay a)) as [err|]; [|done].
    unfold raise. rewrite bind_raise. cbn [fst snd app].
    eexists _, err. split; [reflexivity|].
    cbn [List.filter is_request]. rewrite He. cbn [length]. lia.
  - destruct (check_key_raise i k Hcheck) as (err & Hrun).
    rewrite Hrun, bind_raise. cbn [fst snd app].
    eexists _, err. split; [reflexivity|]. cbn. lia.
Qed.

Lemma for_keys_run (n : Z) (keys : list pystr) :
  loop_completes w a keys = true ->
  forall (i : Z) (rs : list result) (ds : list debug_line),
  exists t,
    for_keys w a n (rs, ds) i keys
    = (t, Ret (rs ++ results_from w a i keys, ds ++ debug_from w a i keys))
    /\ length (List.filter is_request t) = length keys.
Proof.
  induction keys as [|k keys IH]; intros Hloop i rs ds;
    cbn [for_keys results_from debug_from].
  - exists []. by rewrite !app_nil_r.
  - cbn [loop_completes forallb] in Hloop.
    apply andb_true_iff in Hloop as [Hturn Hloop].
    destruct (loop_body_run n i k rs ds Hturn) as (t1 & -> & Hn1).
    destruct (IH Hloop (i + 1) (rs ++ [result_for w a i k])
                (ds ++ [debug_for w a i k])) as (t2 & Hrun & Hn2).
    rewrite bind_ret, Hrun. cbn [fst snd]. rewrite <- !app_assoc.
    exists (t1 ++ t2). split; [done|].
    rewrite List.filter_app, length_app. cbn [length]. lia.
Qed.

Lemma for_keys_raise (n : Z) (keys : list pystr) :
  loop_completes w a keys = false ->
  forall (i : Z) (st : loop_state),
  exists t err,
    for_keys w a n st i keys = (t, Raise err)
    /\ (length (List.filter is_request t) <= length keys)%nat.
Proof.
  induction keys as [|k keys IH]; intros Hloop i [rs ds]; [done|].
  cbn [for_keys]. cbn [loop_completes forallb] in Hloop.
  destruct (turn_completes w a k) eqn:Hturn.
  - cbn [andb] in Hloop.
    destruct (loop_body_run n i k rs ds Hturn) as (t1 & -> & Hn1).
    destruct (IH Hloop (i + 1) (rs ++ [result_for w a i k],
                                ds ++ [debug_for w a i k]))
      as (t2 & err & Hrun & Hn2).
    rewrite bind_ret, Hrun. cbn [fst snd].
    exists (t1 ++ t2), err. split; [done|].
    rewrite List.filter_app, length_app. cbn [length]. lia.
  - destruct (loop_body_raise n i k (rs, ds) Hturn) as (t & err & -> & Hn).
    rewrite bind_raise. exists t, err. split; [done|]. cbn [length]. lia.
Qed.

Lemma validate_run (keys : list pystr) :
  loop_completes w a keys = true ->
  exists t,
    validate w a keys = (t, Ret (results_from w a 1 keys, debug_from w a 1 keys))
    /\ length (List.filter is_request t) = length keys.
Proof. intros Hloop. apply (for_keys_run _ keys Hloop 1 [] []). Qed.

Lemma validate_raise (keys : list pystr) :
  loop_completes w a keys = false ->
  exists t err,
    validate w a keys = (t, Raise err)
    /\ (length (List.filter is_request t) <= length keys)%nat.
Proof. intros Hloop. apply (for_keys_raise _ keys Hloop 1 ([], [])). Qed.

Lemma results_from_length (keys : list pystr) (i : Z) :
  length (results_from w a i keys) = length keys.
Proof. revert i. induction keys; intros; simpl; auto. Qed.

Lemma results_from_lookup (keys : list pystr) (i : Z) (j : nat) :
  results_from w a i keys !! j
  = (fun k => result_for w a (i + Z.of_nat j) k) <$> keys !! j.
Proof.
  revert i j. induction keys as [|k keys IH]; intros i [|j]; simpl; try done.
  - by rewrite Z.add_0_r.
  - rewrite IH. destruct (keys !! j); simpl; [|done].
    do 2 f_equal. lia.
Qed.

Lemma results_from_elem (keys : list pystr) (i : Z) (r : result) :
  r ∈ results_from w a i keys ->
  r = result_for w a (index r) (key r) /\ i <= index r.
Proof.
  intros Hr. apply list_elem_of_lookup in Hr as [j Hj].
  rewrite results_from_lookup in Hj.
  destruct (keys !! j) as [k|]; simpl in Hj; [|done].
  injection Hj as <-. simpl. split; [done|lia].
Qed.

Lemma results_from_increasing (keys : list pystr) (i : Z) :
  StronglySorted index_lt (results_from w a i keys).
Proof.
  revert i. induction keys as [|k keys IH]; intros i; simpl; constructor.
  - apply IH.
  - apply Forall_forall. intros r Hr.
    apply results_from_elem in Hr as [_ Hr]. unfold index_lt. simpl. lia.
Qed.

End Loop.

(** ** One record per key, classified by its status *)

Lemma validate_results (w : world) (a : args) (keys : list pystr) :
  results_of (validate w a keys)
  = (if loop_completes w a keys then results_from w a 1 keys else [])
  /\ debug_lines_of (validate w a keys)
     = (if loop_completes w a keys then debug_from w a 1 keys else []).
Proof.
  unfold results_of, debug_lines_of.
  destruct (loop_completes w a keys) eqn:Hloop.
  - destruct (validate_run w a keys Hloop) as (t & Hrun & _). by rewrite Hrun.
  - destruct (validate_raise w a keys Hloop) as (t & err & Hrun & _).
    by rewrite Hrun.
Qed.

Lemma results_of_increasing (w : world) (a : args) (keys : list pystr) :
  StronglySorted index_lt (results_of (validate w a keys)).
Proof.
  destruct (validate_results w a keys) as [-> _].
  destruct (loop_completes w a keys); [apply results_from_increasing|constructor].
Qed.

Lemma results_of_from (w : world) (a : args) (keys : list pystr) (r : result) :
  In r (results_of (validate w a keys)) -> r ∈ results_from w a 1 keys.
Proof.
  destruct (validate_results w a keys) as [-> _].
  destruct (loop_completes w a keys); [apply list_elem_of_In|done].
Qed.

(** When [requests.get] raises, the status is [None] and the body is the
    text of the exception. *)
Lemma check_key_requests_raised (w : world) (nth : Z) (endpoint k : pystr)
    (m : auth_mode) (key_name : pystr) (timeout : float) (sb : option Z * pystr) :
  snd (check_key_requests w nth endpoint k m key_name timeout) = Ret sb ->
  (fst sb = None <->
   exists err,
     requests_get w nth endpoint (auth_headers m key_name k)
       (match m with query_key => Some [(str "key", k)] | _ => None end) timeout
     = GetRaises err /\ snd sb = err).
Proof.
  unfold check_key_requests, emit. rewrite bind_ret. cbn [snd].
  destruct (requests_get _ _ _ _ _ _) as [err|code text js]; cbn [ret snd];
    intros [= <-]; cbn [fst snd]; split.
  - eauto.
  - done.
  - done.
  - by intros (err & [=] & _).
Qed.




(** C6, as stated, fails: with a negative delay the loop sends the request
    of the first key and then dies in [time.sleep]; no list of records
    comes out of it. *)
Lemma one_record_per_key_counterexample :
  snd (validate Sample.sample_world Sample.hasty_args
         [str "AIzaSyD-GOODKEY-0001"; str "short"])
  = Raise (str "ValueError")
  /\ length (List.filter is_request
               (fst (validate Sample.sample_world Sample.hasty_args
                       [str "AIzaSyD-GOODKEY-0001"; str "short"]))) = 1%nat
  /\ length (results_of (validate Sample.sample_world Sample.hasty_args
                           [str "AIzaSyD-GOODKEY-0001"; str "short"]))
     <> length [str "AIzaSyD-GOODKEY-0001"; str "short"].
Proof. split; [reflexivity|]. split; [reflexivity|]. vm_compute. discriminate. Qed.

(** C6, amended: when every turn of the loop can come to its end (the
    delay is one [time.sleep] accepts and, without [requests], the request
    of every key can be built), the loop ends normally with exactly one
    result record per key, and the record at the position of a key holds
    that key and, as its [index], the position counted from 1. *)
Theorem one_record_per_key (w : world) (a : args) (keys : list pystr) :
  loop_completes w a keys = true ->
  (exists t st, validate w a keys = (t, Ret st))
  /\ length (results_of (validate w a keys)) = length keys
  /\ forall (i : nat) (k : pystr),
       keys !! i = Some k ->
       exists r, results_of (validate w a keys) !! i = Some r
                 /\ key r = k /\ index r = Z.of_nat i + 1.
Proof.
  intros Hloop.
  destruct (validate_results w a keys) as [-> _]. rewrite Hloop.
  split; [|split].
  - destruct (validate_run w a keys Hloop) as (t & Hrun & _). eauto.
  - apply results_from_length.
  - intros i k Hk. rewrite results_from_lookup, Hk.
    eexists. split; [reflexivity|]. cbn [result_for key index]. split; [done|lia].
Qed.

Lemma one_record_per_key_witness :
  exists r,
    results_of (validate Sample.sample_world Sample.sample_args
                  [str "AIzaSyD-GOODKEY-0001"; str "short"]) !! 1%nat = Some r
    /\ key r = str "short" /\ index r = 2.
Proof.
  apply (proj2 (proj2 (one_record_per_key Sample.sample_world Sample.sample_args
           [str "AIzaSyD-GOODKEY-0001"; str "short"] eq_refl)) 1%nat (str "short")).
  reflexivity.
Defined.

(** ** The sorted report *)

Lemma tuple_lt_spec (x y : Z * Z) :
  tuple_lt x y = true <-> fst x < fst y \/ (fst x = fst y /\ snd x < snd y).
Proof.
  unfold tuple_lt.
  rewrite orb_true_iff, andb_true_iff, !Z.ltb_lt, Z.eqb_eq. tauto.
Qed.

Lemma tuple_lt_false (x y : Z * Z) :
  tuple_lt x y = false <-> fst y < fst x \/ (fst x = fst y /\ snd y <= snd x).
Proof.
  rewrite <- not_true_iff_false, tuple_lt_spec. lia.
Qed.

Section Sorting.

Context {A : Type} (f : A -> Z * Z).

Lemma insert_by_perm (x : A) (l : list A) : insert_by f x l ≡ₚ x :: l.
Proof.
  induction l as [|y l IH]; simpl; [done|].
  destruct (tuple_lt (f y) (f x)); [|done].
  rewrite IH. apply Permutation_swap.
Qed.

Lemma sorted_perm (l : list A) : sorted f l ≡ₚ l.
Proof.
  induction l as [|x l IH]; simpl; [done|].
  by rewrite insert_by_perm, IH.
Qed.

Lemma insert_by_sorted (x : A) (l : list A) :
  StronglySorted (before f) l -> StronglySorted (before f) (insert_by f x l).
Proof.
  induction 1 as [|y l Hl IH Hy]; simpl.
  - repeat constructor.
  - destruct (tuple_lt (f y) (f x)) eqn:Hlt; constructor.
    + done.
    + rewrite insert_by_perm. constructor; [|done].
      unfold before. apply tuple_lt_spec in Hlt. apply tuple_lt_false. lia.
    + by constructor.
    + constructor; [done|].
      eapply Forall_impl; [exact Hy|]. unfold before. intros z Hz.
      apply tuple_lt_false in Hlt, Hz. apply tuple_lt_false. lia.
Qed.

Lemma sorted_sorted (l : list A) : StronglySorted (before f) (sorted f l).
Proof.
  induction l as [|x l IH]; simpl; [constructor|].
  by apply insert_by_sorted.
Qed.

(** An element goes to the front of a list when no key in it is smaller,
    and passes a prefix of smaller keys. *)
Lemma insert_by_front (x : A) (l : list A) :
  Forall (before f x) l -> insert_by f x l = x :: l.
Proof.
  destruct 1 as [|y l Hy _]; simpl; [done|].
  unfold before in Hy. by rewrite Hy.
Qed.

Lemma insert_by_pass (x : A) (l1 l2 : list A) :
  Forall (fun y => tuple_lt (f y) (f x) = true) l1 ->
  insert_by f x (l1 ++ l2) = l1 ++ insert_by f x l2.
Proof.
  induction 1 as [|y l1 Hy _ IH]; simpl; [done|].
  by rewrite Hy, IH.
Qed.

End Sorting.

Lemma StronglySorted_lookup {A} (R : relation A) (l : list A) (i j : nat) (x y : A) :
  StronglySorted R l -> (i < j)%nat -> l !! i = Some x -> l !! j = Some y -> R x y.
Proof.
  intros Hl Hij Hx Hy.
  rewrite <- (take_drop j l) in Hl.
  eapply StronglySorted_app_1_elem_of; [exact Hl| |].
  - apply list_elem_of_lookup. exists i. by rewrite lookup_take_lt.
  - apply list_elem_of_lookup. exists 0%nat.
    by rewrite lookup_drop, Nat.add_0_r.
Qed.

Lemma key_le_order (r1 r2 : result) :
  key_le r1 r2 ->
  (ok r1 = false -> ok r2 = false) /\ (ok r1 = ok r2 -> index r1 <= index r2).
Proof.
  unfold key_le, before, sort_key. rewrite tuple_lt_false. cbn [fst snd].
  destruct (ok r1), (ok r2); intros H; split; intros; try done; lia.
Qed.

(** C2: the sorted report holds the same records as the list it is made
    from; a record with [ok = true] never comes after one with
    [ok = false]; and of two records with the same [ok] the earlier one has
    the index that is not larger, and the smaller one when no two records
    share an index (as is the case for the records of a run). *)
Theorem sorted_active_first_by_index (rs : list result) :
  sorted sort_key rs ≡ₚ rs
  /\ forall (i j : nat) (r1 r2 : result),
       (i < j)%nat ->
       sorted sort_key rs !! i = Some r1 ->
       sorted sort_key rs !! j = Some r2 ->
       (ok r1 = false -> ok r2 = false)
       /\ (ok r1 = ok r2 -> index r1 <= index r2)
       /\ (NoDup (index <$> rs) -> ok r1 = ok r2 -> index r1 < index r2).
Proof.
  split; [apply sorted_perm|].
  intros i j r1 r2 Hij H1 H2.
  pose proof (StronglySorted_lookup _ _ _ _ _ _ (sorted_sorted sort_key rs) Hij H1 H2)
    as Hle.
  apply key_le_order in Hle as [Hok Hidx].
  split; [done|]. split; [done|].
  intros Hnd Heq. specialize (Hidx Heq).
  assert (index r1 <> index r2); [|lia].
  intros Hsame.
  rewrite <- (sorted_perm sort_key rs) in Hnd.
  assert (i = j); [|lia].
  apply (NoDup_lookup _ _ _ (index r1) Hnd).
  - by rewrite list_lookup_fmap, H1.
  - by rewrite list_lookup_fmap, H2, Hsame.
Qed.

Lemma sorted_active_first_by_index_witness :
  sorted sort_key three_results = [result_two; result_three; result_one]
  /\ (ok result_three = false -> ok result_one = false)
  /\ (ok result_two = ok result_three -> index result_two <= index result_three)
  /\ (NoDup (index <$> three_results) ->
      ok result_two = ok result_three -> index result_two < index result_three).
Proof.
  split; [reflexivity|]. split; [|split].
  - apply (proj2 (sorted_active_first_by_index three_results) 1%nat 2%nat);
      [lia | reflexivity | reflexivity].
  - apply (proj2 (sorted_active_first_by_index three_results) 0%nat 1%nat);
      [lia | reflexivity | reflexivity].
  - apply (proj2 (sorted_active_first_by_index three_results) 0%nat 1%nat);
      [lia | reflexivity | reflexivity].
Defined.

(** The records of a run come with increasing indices, so sorting them
    only moves the active ones to the front. *)
Lemma sorted_increasing (rs : list result) :
  StronglySorted index_lt rs ->
  sorted sort_key rs
  = List.filter ok rs ++ List.filter (fun r => negb (ok r)) rs.
Proof.
  induction 1 as [|r rs Hrs IH Hr]; [done|].
  cbn [sorted foldr]. fold (sorted sort_key rs). rewrite IH.
  assert (Hlater : forall y, In y rs -> ok y = ok r \/ ok r = true ->
            before sort_key r y).
  { intros y Hy Hcase. apply list_elem_of_In in Hy.
    pose proof (proj1 (Forall_forall _ _) Hr y Hy) as Hlt.
    unfold before, sort_key, index_lt in *. apply tuple_lt_false. cbn [fst snd].
    destruct (ok y), (ok r); destruct Hcase; try done; lia. }
  cbn [List.filter]. destruct (ok r) eqn:Hok; cbn [negb app].
  - apply insert_by_front.
    apply Forall_app. split; apply Forall_forall; intros y Hy;
      apply list_elem_of_In, List.filter_In in Hy as [Hy _];
      apply Hlater; auto.
  - rewrite insert_by_pass.
    + f_equal. apply insert_by_front.
      apply Forall_forall. intros y Hy.
      apply list_elem_of_In, List.filter_In in Hy as [Hy Hny].
      apply Hlater; [done|]. left. by destruct (ok y).
    + apply Forall_forall. intros y Hy.
      apply list_elem_of_In, List.filter_In in Hy as [_ Hy].
      apply tuple_lt_spec. unfold sort_key. rewrite Hok, Hy. cbn [fst snd]. lia.
Qed.

(** ** The files *)

Lemma aktif_text_filter (rs : list result) :
  aktif_text rs = concat (map key_line (map key (List.filter ok rs))).
Proof.
  induction rs as [|r rs IH]; [done|].
  cbn [aktif_text List.filter]. destruct (ok r); [|done].
  cbn [map concat]. unfold key_line at 1. rewrite IH.
  by rewrite <- !app_assoc.
Qed.

Lemma filter_ok_sorted (rs : list result) :
  StronglySorted index_lt rs ->
  List.filter ok (sorted sort_key rs) = List.filter ok rs.
Proof.
  intros Hrs. rewrite sorted_increasing by done.
  rewrite List.filter_app.
  assert (Hnone : List.filter ok (List.filter (fun r => negb (ok r)) rs) = []).
  { induction rs as [|r rs IH]; [done|].
    apply StronglySorted_inv in Hrs as [Hrs _].
    cbn [List.filter]. destruct (ok r) eqn:Hok; cbn [negb List.filter]; [auto|].
    rewrite Hok. auto. }
  assert (Hsame : List.filter ok (List.filter ok rs) = List.filter ok rs).
  { clear. induction rs as [|r rs IH]; [done|].
    cbn [List.filter]. destruct (ok r) eqn:Hok; [|done].
    cbn [List.filter]. by rewrite Hok, IH. }
  by rewrite Hnone, Hsame, app_nil_r.
Qed.

Lemma print_report_run (rs : list result) :
  print_report rs = (map (fun r => Print (report_line r)) rs, Ret tt).
Proof.
  induction rs as [|r rs IH]; [done|].
  cbn [print_report]. unfold emit. by rewrite bind_ret, IH.
Qed.

Lemma write_debug_log_run (w : world) (a : args) (ds : list debug_line) :
  write_debug_log w a ds
  = (match open_w w (path_str w (arg_debug_log a)) with
     | Some err => [PrintErr (str "Failed to write debug log: " ++ err)]
     | None =>
         match write_cut w (path_str w (arg_debug_log a)) (debug_log_text w a ds) with
         | Some (n, err) =>
             [WriteFile (path_str w (arg_debug_log a))
                (take n (debug_log_text w a ds));
              PrintErr (str "Failed to write debug log: " ++ err)]
         | None =>
             [WriteFile (path_str w (arg_debug_log a)) (debug_log_text w a ds);
              Print (str "Debug log written to: " ++ path_str w (arg_debug_log a))]
         end
     end, Ret tt).
Proof.
  unfold write_debug_log, write_text.
  destruct (open_w _ _); [done|].
  by destruct (write_cut _ _ _) as [[n err]|].
Qed.

Lemma write_aktif_run (w : world) (a : args) (rs : list result) :
  write_aktif w a rs
  = (match aktif_path w (arg_file a) with
     | inl p =>
         match open_w w p with
         | Some err => [PrintErr (str "Failed to write aktif.txt: " ++ err)]
         | None =>
             match write_cut w p (aktif_text rs) with
             | Some (n, err) =>
                 [WriteFile p (take n (aktif_text rs));
                  PrintErr (str "Failed to write aktif.txt: " ++ err)]
             | None =>
                 [WriteFile p (aktif_text rs);
                  Print (str "Active keys written to: " ++ p)]
             end
         end
     | inr err => [PrintErr (str "Failed to write aktif.txt: " ++ err)]
     end, Ret tt).
Proof.
  unfold write_aktif, write_text.
  destruct (aktif_path _ _); [|done].
  destruct (open_w _ _); [done|].
  by destruct (write_cut _ _ _) as [[n err]|].
Qed.

(** A run with at least one key whose loop comes to its end: the loop, the
    report, the two files. *)
Lemma main_events (w : world) (a : args) (keys : list pystr) :
  read_keys (fs w) (arg_file a) = inl keys ->
  keys <> [] ->
  loop_completes w a keys = true ->
  main w a
  = (fst (validate w a keys)
       ++ [Print ([LF] ++ str "Validation results (top -> bottom):"); Print rule]
       ++ map (fun r => Print (report_line r))
            (sorted sort_key (results_of (validate w a keys)))
       ++ [Print rule]
       ++ fst (write_debug_log w a (debug_lines_of (validate w a keys)))
       ++ fst (write_aktif w a (sorted sort_key (results_of (validate w a keys)))),
     Ret tt).
Proof.
  intros Hkeys Hne Hloop. unfold main. rewrite Hkeys.
  destruct keys as [|k keys]; [done|].
  destruct (validate_run w a (k :: keys) Hloop) as (t & Hrun & _).
  unfold results_of, debug_lines_of. rewrite Hrun. cbn [fst snd].
  rewrite bind_ret. unfold emit. rewrite !bind_ret. cbn [fst snd].
  rewrite print_report_run, !bind_ret. cbn [fst snd].
  rewrite write_debug_log_run, bind_ret, write_aktif_run. cbn [fst snd].
  by rewrite <- ?app_assoc.
Qed.

(** A run whose loop does not come to its end: nothing follows the loop. *)
Lemma main_raise (w : world) (a : args) (keys : list pystr) :
  read_keys (fs w) (arg_file a) = inl keys ->
  loop_completes w a keys = false ->
  exists err, main w a = (fst (validate w a keys), Raise err).
Proof.
  intros Hkeys Hloop. unfold main. rewrite Hkeys.
  destruct keys as [|k keys]; [done|].
  destruct (validate_raise w a (k :: keys) Hloop) as (t & err & Hrun & _).
  rewrite Hrun, bind_raise. by exists err.
Qed.

(** ** Reading the debug log back *)

Ltac eval_str :=
  repeat match goal with
         | |- context [str ?s] =>
             let v := eval vm_compute in (str s) in change (str s) with v
         end.

Lemma read_digits_chars (u : Decimal.uint) (rest : pystr) :
  no_digit rest = true ->
  read_digits (chars_of_uint u ++ rest) = (u, rest).
Proof.
  intros Hrest.
  induction u as [|u IH|u IH|u IH|u IH|u IH|u IH|u IH|u IH|u IH|u IH];
    cbn [chars_of_uint app read_digits]; try (by rewrite IH).
  destruct rest as [|c rest]; [done|].
  cbn [read_digits]. cbn [no_digit] in Hrest.
  by destruct (is_digit c).
Qed.

Lemma chars_of_uint_head (u : Decimal.uint) :
  u <> Decimal.Nil ->
  exists c tl, chars_of_uint u = c :: tl /\ is_digit c = true.
Proof. destruct u; intros Hu; try done; cbn [chars_of_uint]; by eexists _, _. Qed.

Lemma str_int_head (z : Z) :
  exists c tl, str_int z = c :: tl /\ (is_digit c = true \/ c = 45%N).
Proof.
  destruct z as [|p|p]; cbn [str_int].
  - by eexists _, _; split; [reflexivity|left].
  - destruct (chars_of_uint_head (N.to_uint (N.pos p))) as (c & tl & Hc & Hd).
    { apply DecimalPos.Unsigned.to_uint_nonnil. }
    unfold str_nat. rewrite Hc. eauto.
  - by eexists _, _; split; [reflexivity|right].
Qed.

Lemma read_nat_str_nat (p : positive) (rest : pystr) :
  no_digit rest = true ->
  read_nat (str_nat (N.pos p) ++ rest) = Some (Z.pos p, rest).
Proof.
  intros Hrest. unfold read_nat, str_nat.
  rewrite read_digits_chars by done.
  pose proof (DecimalPos.Unsigned.to_uint_nonnil p) as Hnil.
  pose proof (DecimalN.Unsigned.of_to (N.pos p)) as Hof.
  change (N.to_uint (N.pos p)) with (Pos.to_uint p) in *.
  destruct (Pos.to_uint p); try done; by rewrite Hof.
Qed.

Lemma read_int_str_int (z : Z) (rest : pystr) :
  no_digit rest = true ->
  read_int (str_int z ++ rest) = Some (z, rest).
Proof.
  intros Hrest. destruct z as [|p|p]; cbn [str_int].
  - eval_str. cbn [app read_int N.eqb Pos.eqb].
    change [48%N] with (chars_of_uint (Decimal.D0 Decimal.Nil)).
    unfold read_nat. change (48%N :: rest) with (chars_of_uint (Decimal.D0 Decimal.Nil) ++ rest).
    by rewrite read_digits_chars.
  - pose proof (read_nat_str_nat p rest Hrest) as Hnat.
    destruct (chars_of_uint_head (N.to_uint (N.pos p))) as (c & tl & Hc & Hd).
    { apply DecimalPos.Unsigned.to_uint_nonnil. }
    unfold str_nat in *. rewrite Hc in *. cbn [app read_int] in *.
    destruct (N.eqb_spec c 45) as [->|_]; [done|]. exact Hnat.
  - eval_str. cbn [app read_int N.eqb Pos.eqb].
    by rewrite read_nat_str_nat.
Qed.

Lemma hex_digit_value (d : N) :
  (d < 16)%N -> hex_value (hex_digit d) = Some d.
Proof.
  intros Hd. rewrite <- (N2Nat.id d). assert (Hn : (N.to_nat d < 16)%nat) by lia.
  revert Hn. generalize (N.to_nat d). intros n Hn.
  do 16 (destruct n as [|n]; [reflexivity|]). lia.
Qed.

Lemma read_chars_escape (c : char) (s : pystr) :
  read_chars (escape_char c ++ s) = cons_fst c (read_chars s).
Proof.
  unfold escape_char.
  repeat (match goal with
          | |- context [N.eqb c ?k] => destruct (N.eqb_spec c k) as [->|?]
          end; [eval_str; reflexivity|]).
  destruct (N.ltb_spec c 32) as [Hlt|Hge].
  - eval_str. cbn [app read_chars N.eqb Pos.eqb].
    unfold hex4. rewrite !hex_digit_value.
    + change (hex_value 48) with (Some 0%N). cbn iota. cbn [N.mul N.add].
      f_equal. pose proof (N.div_mod c 16). lia.
    + apply N.mod_lt. lia.
    + apply N.Div0.div_lt_upper_bound. lia.
  - cbn [app read_chars].
    destruct (N.eqb_spec c 34); [done|]. destruct (N.eqb_spec c 92); [done|].
    by destruct (N.ltb_spec c 32); [lia|].
Qed.

Lemma read_chars_basestring (t rest : pystr) :
  read_chars (concat (map escape_char t) ++ 34%N :: rest) = Some (t, rest).
Proof.
  induction t as [|c t IH]; [reflexivity|].
  cbn [map concat]. rewrite <- app_assoc, read_chars_escape, IH. reflexivity.
Qed.

Lemma skip_ws_newline_indent (n : nat) (s : pystr) :
  skip_ws (newline_indent n ++ s) = skip_ws s.
Proof.
  unfold newline_indent. cbn [app skip_ws is_ws N.eqb Pos.eqb orb].
  induction (2 * n)%nat as [|m IH]; [done|].
  cbn [replicate app skip_ws]. exact IH.
Qed.

Lemma no_digit_newline_indent (n : nat) (s : pystr) :
  no_digit (newline_indent n ++ s) = true.
Proof. reflexivity. Qed.

Lemma read_value_skip (fuel : nat) (s s' : pystr) :
  skip_ws s = skip_ws s' -> read_value fuel s = read_value fuel s'.
Proof. intros H. destruct fuel; [done|]. cbn [read_value]. by rewrite H. Qed.

Lemma read_items_skip (fuel : nat) (s s' : pystr) :
  skip_ws s = skip_ws s' -> read_items fuel s = read_items fuel s'.
Proof.
  intros H. destruct fuel; [done|]. cbn [read_items].
  by rewrite (read_value_skip fuel s s').
Qed.

Lemma read_members_skip (fuel : nat) (s s' : pystr) :
  skip_ws s = skip_ws s' -> read_members fuel s = read_members fuel s'.
Proof. intros H. destruct fuel; [done|]. cbn [read_members]. by rewrite H. Qed.

(** The text of a value starts with a character that is neither white
    space nor a closing bracket. *)
Lemma encode_head (lvl : nat) (v : json) :
  exists c tl, encode lvl v = c :: tl /\ is_ws c = false /\ (c =? 93)%N = false.
Proof.
  destruct v as [|z|t|items|members]; cbn [encode].
  - by eexists _, _.
  - destruct (str_int_head z) as (c & tl & -> & Hc). exists c, tl.
    split; [done|]. unfold is_digit, is_ws in *.
    destruct Hc as [Hc| ->]; [|done].
    apply andb_true_iff in Hc as [H1 H2]. apply N.leb_le in H1, H2.
    repeat match goal with
           | |- context [N.eqb c ?k] => destruct (N.eqb_spec c k); [lia|]
           end.
    done.
  - by eexists _, _.
  - destruct items; by eexists _, _.
  - destruct members; by eexists _, _.
Qed.

Lemma skip_ws_encode (lvl : nat) (v : json) (s : pystr) :
  skip_ws (encode lvl v ++ s) = encode lvl v ++ s.
Proof.
  destruct (encode_head lvl v) as (c & tl & -> & Hc & _).
  cbn [app skip_ws]. by rewrite Hc.
Qed.

Lemma read_value_int (fuel : nat) (z : Z) (rest : pystr) :
  no_digit rest = true ->
  read_value (S fuel) (str_int z ++ rest) = Some (JInt z, rest).
Proof.
  intros Hrest. pose proof (read_int_str_int z rest Hrest) as Hint.
  pose proof (skip_ws_encode 0 (JInt z) rest) as Hskip. cbn [encode] in Hskip.
  cbn [read_value]. rewrite Hskip.
  destruct (str_int_head z) as (c & tl & Hz & Hc). rewrite Hz in *.
  cbn [app] in *. rewrite Hint.
  assert (Hne : (c =? 110)%N = false /\ (c =? 34)%N = false
                /\ (c =? 91)%N = false /\ (c =? 123)%N = false).
  { unfold is_digit in Hc. destruct Hc as [Hc| ->]; [|done].
    apply andb_true_iff in Hc as [H1 H2]. apply N.leb_le in H1, H2.
    repeat split; apply N.eqb_neq; lia. }
  destruct Hne as (-> & -> & -> & ->). reflexivity.
Qed.

(** Enough fuel reads a value, the items of an array and the members of an
    object back from their text. *)
Lemma list_sum_cons (n : nat) (l : list nat) :
  list_sum (n :: l) = (n + list_sum l)%nat.
Proof. reflexivity. Qed.

Lemma read_back (fuel : nat) :
  (forall v lvl rest,
      (size v <= fuel)%nat -> no_digit rest = true ->
      read_value fuel (encode lvl v ++ rest) = Some (v, rest))
  /\ (forall items lvl tail rest,
      items <> [] ->
      (list_sum (map (fun x => S (size x)) items) <= fuel)%nat ->
      no_digit tail = true -> skip_ws tail = 93%N :: rest ->
      read_items fuel
        (join (44%N :: newline_indent lvl) (map (encode lvl) items) ++ tail)
      = Some (items, rest))
  /\ (forall members lvl tail rest,
      members <> [] ->
      (list_sum (map (fun kv => S (size (snd kv))) members) <= fuel)%nat ->
      no_digit tail = true -> skip_ws tail = 125%N :: rest ->
      read_members fuel
        (join (44%N :: newline_indent lvl) (map (member_text lvl) members) ++ tail)
      = Some (members, rest)).
Proof.
  induction fuel as [|fuel (IHv & IHi & IHm)].
  { split; [|split].
    - intros v ? ? Hsize. destruct v; cbn [size] in Hsize; lia.
    - intros [|x items] ? ? ? ? Hsize; [done|].
      cbn [map] in Hsize. rewrite list_sum_cons in Hsize. lia.
    - intros [|x members] ? ? ? ? Hsize; [done|].
      cbn [map] in Hsize. rewrite list_sum_cons in Hsize. lia. }
  split; [|split].
  - intros v lvl rest Hsize Hrest.
    destruct v as [|z|t|items|members].
    + reflexivity.
    + by apply read_value_int.
    + cbn [encode read_value]. unfold encode_basestring.
      cbn [app skip_ws is_ws N.eqb Pos.eqb orb].
      rewrite <- app_assoc. cbn [app]. by rewrite read_chars_basestring.
    + destruct items as [|x items]; [reflexivity|].
      cbn [encode]. eval_str. cbn [app read_value skip_ws is_ws N.eqb Pos.eqb orb].
      rewrite <- !app_assoc. cbn [app].
      set (tail := newline_indent lvl ++ 93%N :: rest).
      set (body := join _ _).
      rewrite skip_ws_newline_indent.
      rewrite (read_items_skip fuel _ (body ++ tail))
        by apply skip_ws_newline_indent.
      destruct (encode_head (S lvl) x) as (c & tl & Hx & Hc & Hc93).
      assert (Hskip : exists tl', skip_ws (body ++ tail) = c :: tl').
      { subst body. cbn [map join]. destruct (map (encode (S lvl)) items);
          rewrite Hx; cbn [app skip_ws]; rewrite Hc; eauto. }
      destruct Hskip as (tl' & ->). rewrite Hc93.
      subst body tail. rewrite (IHi (x :: items) (S lvl) _ rest); try done.
      * cbn [size] in Hsize. lia.
      * by rewrite skip_ws_newline_indent.
    + destruct members as [|kv members]; [reflexivity|].
      cbn [encode].
      change (fun kv0 : pystr * json =>
                encode_basestring (fst kv0) ++ str ": " ++ encode (S lvl) (snd kv0))
        with (member_text (S lvl)).
      eval_str. cbn [app read_value skip_ws is_ws N.eqb Pos.eqb orb].
      rewrite <- !app_assoc. cbn [app].
      set (tail := newline_indent lvl ++ 125%N :: rest).
      set (body := join _ _).
      rewrite skip_ws_newline_indent.
      rewrite (read_members_skip fuel _ (body ++ tail))
        by apply skip_ws_newline_indent.
      assert (Hskip : exists tl', skip_ws (body ++ tail) = 34%N :: tl').
      { subst body. cbn [map join]. destruct (map _ members);
          unfold member_text, encode_basestring;
          cbn [app skip_ws is_ws N.eqb Pos.eqb orb]; eauto. }
      destruct Hskip as (tl' & ->). cbn [N.eqb Pos.eqb].
      subst body tail. rewrite (IHm (kv :: members) (S lvl) _ rest); try done.
      * cbn [size] in Hsize. lia.
      * by rewrite skip_ws_newline_indent.
  - intros items lvl tail rest Hne Hsize Htail Hclose.
    destruct items as [|x items]; [done|]. clear Hne.
    cbn [map] in Hsize. rewrite list_sum_cons in Hsize. cbn [read_items map join].
    destruct items as [|y items].
    + cbn [map]. rewrite IHv by (done || lia). rewrite Hclose. reflexivity.
    + set (more := y :: items) in *.
      assert (Hmore : exists e es, map (encode lvl) more = e :: es)
        by (by eexists _, _).
      destruct Hmore as (e & es & Hmore). rewrite Hmore, <- Hmore.
      rewrite <- !app_assoc. cbn [app].
      rewrite IHv by (done || lia).
      cbn [skip_ws is_ws N.eqb Pos.eqb orb].
      rewrite (read_items_skip fuel _
                 (join (44%N :: newline_indent lvl) (map (encode lvl) more) ++ tail))
        by apply skip_ws_newline_indent.
      rewrite (IHi more lvl tail rest); try done. lia.
  - intros members lvl tail rest Hne Hsize Htail Hclose.
    destruct members as [|[k v] members]; [done|]. clear Hne.
    cbn [map snd] in Hsize. rewrite list_sum_cons in Hsize. cbn [map join].
    assert (Hone : forall s, no_digit s = true ->
              read_members (S fuel) (member_text lvl (k, v) ++ s)
              = match skip_ws s with
                | d :: rest3 =>
                    if (d =? 44)%N then
                      match read_members fuel rest3 with
                      | Some (ms, rest4) => Some ((k, v) :: ms, rest4)
                      | None => None
                      end
                    else if (d =? 125)%N then Some ([(k, v)], rest3)
                    else None
                | [] => None
                end).
    { intros s Hs. unfold member_text, encode_basestring. cbn [fst snd].
      eval_str. rewrite <- !app_assoc.
      cbn [app read_members skip_ws is_ws N.eqb Pos.eqb orb].
      rewrite read_chars_basestring.
      cbn [app skip_ws is_ws N.eqb Pos.eqb orb].
      rewrite (read_value_skip fuel _ (encode lvl v ++ s)) by reflexivity.
      by rewrite IHv by (done || lia). }
    destruct members as [|kv' members].
    + cbn [map]. rewrite Hone by done. rewrite Hclose. reflexivity.
    + set (more := kv' :: members) in *.
      assert (Hmore : exists e es, map (member_text lvl) more = e :: es)
        by (by eexists _, _).
      destruct Hmore as (e & es & Hmore). rewrite Hmore, <- Hmore.
      rewrite <- !app_assoc. rewrite Hone by done.
      cbn [app skip_ws is_ws N.eqb Pos.eqb orb].
      rewrite (read_members_skip fuel _
                 (join (44%N :: newline_indent lvl)
                    (map (member_text lvl) more) ++ tail))
        by apply skip_ws_newline_indent.
      rewrite (IHm more lvl tail rest); try done. lia.
Qed.


(** *** The text of a value is at least as long as the value is large *)

Lemma list_sum_bound {A} (f : A -> nat) (l : list A) (n : nat) :
  (list_sum (map f l) <= n)%nat -> Forall (fun x => (f x <= n)%nat) l.
Proof.
  revert n. induction l as [|x l IH]; intros n Hn; constructor.
  - cbn [map] in Hn. rewrite list_sum_cons in Hn. lia.
  - apply IH. cbn [map] in Hn. rewrite list_sum_cons in Hn. lia.
Qed.

Lemma join_length_bound {A} (f : A -> nat) (text : A -> pystr) (sep : pystr)
    (l : list A) :
  (1 <= length sep)%nat ->
  Forall (fun x => (f x <= length (text x))%nat) l ->
  (list_sum (map (fun x => S (f x)) l) <= S (length (join sep (map text l))))%nat.
Proof.
  intros Hsep. induction 1 as [|x l Hx Hl IH]; [cbn; lia|].
  cbn [map join]. rewrite list_sum_cons.
  destruct l as [|y l].
  - cbn [map list_sum fold_right]. lia.
  - set (more := y :: l) in *.
    assert (Hmore : exists e es, map text more = e :: es) by (by eexists _, _).
    destruct Hmore as (e & es & Hmore). rewrite Hmore, <- Hmore.
    rewrite !length_app. lia.
Qed.

Lemma size_le_length (n : nat) :
  forall v lvl, (size v <= n)%nat -> (size v <= length (encode lvl v))%nat.
Proof.
  induction n as [|n IH]; intros v lvl Hn.
  { destruct v; cbn [size] in Hn; lia. }
  destruct v as [|z|t|items|members].
  - vm_compute. lia.
  - destruct (str_int_head z) as (c & tl & Hz & _).
    cbn [size encode]. rewrite Hz. cbn [length]. lia.
  - cbn [size encode]. unfold encode_basestring. rewrite !length_app. cbn [length]. lia.
  - destruct items as [|x items]; [vm_compute; lia|].
    cbn [size encode] in *. rewrite !length_app.
    pose proof (join_length_bound size (encode (S lvl))
                  (str "," ++ newline_indent (S lvl)) (x :: items)) as Hjoin.
    assert (Hall : Forall (fun y => (size y <= length (encode (S lvl) y))%nat)
                     (x :: items)).
    { apply le_S_n in Hn. apply list_sum_bound in Hn.
      eapply Forall_impl; [exact Hn|]. intros y Hy. apply IH. cbn beta in Hy. lia. }
    specialize (Hjoin ltac:(rewrite length_app; change (length (str ",")) with 1%nat; lia) Hall).
    change (length (str "[")) with 1%nat. change (length (str "]")) with 1%nat.
    unfold newline_indent at 1 3. cbn [length]. lia.
  - destruct members as [|kv members]; [vm_compute; lia|].
    cbn [size encode] in *. rewrite !length_app.
    pose proof (join_length_bound (fun kv => size (snd kv)) (member_text (S lvl))
                  (str "," ++ newline_indent (S lvl)) (kv :: members)) as Hjoin.
    assert (Hall : Forall (fun y => (size (snd y) <= length (member_text (S lvl) y))%nat)
                     (kv :: members)).
    { apply le_S_n in Hn. apply list_sum_bound in Hn.
      eapply Forall_impl; [exact Hn|]. intros y Hy. cbn beta in Hy.
      unfold member_text. rewrite !length_app.
      pose proof (IH (snd y) (S lvl)). lia. }
    specialize (Hjoin ltac:(rewrite length_app; change (length (str ",")) with 1%nat; lia) Hall).
    change (length (str "{")) with 1%nat. change (length (str "}")) with 1%nat.
    unfold newline_indent at 1 3. cbn [length].
    change (fun kv0 : pystr * json =>
              encode_basestring (fst kv0) ++ str ": " ++ encode (S lvl) (snd kv0))
      with (member_text (S lvl)).
    lia.
Qed.

(** Reading back what was dumped gives the value, also when white space
    follows. *)
Lemma loads_dump_ws (v : json) (ws : pystr) :
  no_digit ws = true -> skip_ws ws = [] -> loads (dump v ++ ws) = Some v.
Proof.
  intros Hnd Hws. unfold loads, dump.
  destruct (read_back (S (length (encode 0 v ++ ws)))) as (Hv & _ & _).
  rewrite Hv, Hws; [done| |done].
  pose proof (size_le_length (size v) v 0 (le_n _)).
  rewrite length_app. lia.
Qed.

Lemma loads_dump (v : json) : loads (dump v) = Some v.
Proof.
  rewrite <- (app_nil_r (dump v)). by apply loads_dump_ws.
Qed.

(** The debug log starts with its title, so no amount of fuel reads a JSON
    value from it. *)
Lemma debug_log_is_not_json (w : world) (a : args) (ds : list debug_line)
    (fuel : nat) :
  read_value fuel (debug_log_text w a ds) = None.
Proof. by destruct fuel. Qed.

(** C4, as stated, fails: the file the sample run writes as its debug log
    does not read as JSON, because a text header comes before the array. *)
Lemma debug_log_json_counterexample :
  In (WriteFile (str "validasi_debug.log") sample_debug_log)
     (fst (main Sample.sample_world Sample.sample_args))
  /\ loads sample_debug_log = None.
Proof.
  split; [|reflexivity].
  vm_compute. do 15 right. left. reflexivity.
Qed.

(** C4, amended: when there is at least one key, the loop comes to its end
    and the debug log is opened and written in full, the program writes to
    it a header of four lines (a title, the endpoint, the time, an empty
    line) and after it a text that reads as the JSON array of the debug
    records, one per key. *)
Theorem debug_log_header_then_json_array (w : world) (a : args)
    (keys : list pystr) :
  read_keys (fs w) (arg_file a) = inl keys ->
  keys <> [] ->
  loop_completes w a keys = true ->
  open_w w (path_str w (arg_debug_log a)) = None ->
  write_cut w (path_str w (arg_debug_log a))
    (debug_log_text w a (debug_lines_of (validate w a keys))) = None ->
  exists body,
    In (WriteFile (path_str w (arg_debug_log a)) (debug_header w a ++ body))
       (fst (main w a))
    /\ loads body = Some (JArr (map debug_json (debug_lines_of (validate w a keys))))
    /\ length (debug_lines_of (validate w a keys)) = length keys.
Proof.
  intros Hkeys Hne Hloop Hopen Hcut.
  pose proof (main_events w a keys Hkeys Hne Hloop) as Hmain.
  exists (dump (JArr (map debug_json (debug_lines_of (validate w a keys)))) ++ [LF]).
  split; [|split].
  - rewrite Hmain. cbn [fst]. rewrite write_debug_log_run, Hopen, Hcut.
    cbn [fst]. rewrite !in_app_iff.
    right. right. right. right. left. left. reflexivity.
  - by apply loads_dump_ws.
  - destruct (validate_results w a keys) as [_ ->]. rewrite Hloop.
    clear. generalize 1. induction keys as [|k keys IH]; intros i; [done|].
    cbn [debug_from length]. by rewrite IH.
Qed.

Lemma debug_log_header_then_json_array_witness :
  exists body,
    In (WriteFile (str "validasi_debug.log")
          (debug_header Sample.sample_world Sample.sample_args ++ body))
       (fst (main Sample.sample_world Sample.sample_args))
    /\ loads body = Some (JArr (map debug_json sample_debug_lines))
    /\ length sample_debug_lines = 3%nat.
Proof.
  apply (debug_log_header_then_json_array Sample.sample_world Sample.sample_args
           [str "AIzaSyD-GOODKEY-0001"; str "short"; str "AIzaSyD-GOODKEY-0003"]).
  - reflexivity.
  - discriminate.
  - reflexivity.
  - reflexivity.
  - reflexivity.
Defined.

(** * Further properties *)

(** ** What a run does to the world *)

Lemma loop_body_events (w : world) (a : args) (n i : Z) (k : pystr)
    (st : loop_state) :
  fst (loop_body w a n st i k)
  = Print (progress_line n i k) :: fst (check_key w a i k)
    ++ (if turn_completes w a k then [Sleep (arg_delay a)] else []).
Proof.
  destruct st as [rs ds].
  unfold loop_body. rewrite mask_key_text. unfold lift, ret, emit.
  rewrite !bind_ret. cbn beta. fold (check_key w a i k).
  unfold turn_completes.
  destruct (can_check w a k) eqn:Hcheck; cbn [andb].
  - destruct (check_key_run w a i k Hcheck) as (e & _ & Hrun).
    rewrite Hrun, bind_ret.
    destruct (answer w a i k) as [st body]. cbn [fst snd].
    destruct (classify st body) as [is_ok nt].
    rewrite body_preview_text, bind_ret. unfold time_sleep.
    destruct (sleep_error w (arg_delay a)); reflexivity.
  - destruct (check_key_raise w a i k Hcheck) as (err & Hrun).
    rewrite Hrun. reflexivity.
Qed.

Lemma for_keys_events (w : world) (a : args) (n : Z) (keys : list pystr) :
  loop_completes w a keys = true ->
  forall (i : Z) (st : loop_state),
    fst (for_keys w a n st i keys) = loop_events w a n i keys.
Proof.
  induction keys as [|k keys IH]; intros Hloop i [rs ds]; [done|].
  cbn [loop_completes forallb] in Hloop.
  apply andb_true_iff in Hloop as [Hturn Hloop].
  cbn [for_keys loop_events].
  pose proof (loop_body_events w a n i k (rs, ds)) as Hev.
  destruct (loop_body_run w a n i k rs ds Hturn) as (t & Hrun & _).
  rewrite Hrun, Hturn in Hev. cbn [fst] in Hev. subst t.
  rewrite Hrun, bind_ret. cbn [fst]. rewrite (IH Hloop).
  cbn [app]. by rewrite <- app_assoc.
Qed.

Lemma check_key_no_write (w : world) (a : args) (i : Z) (k : pystr) :
  Forall (fun e => is_write e = false) (fst (check_key w a i k)).
Proof.
  destruct (can_check w a k) eqn:Hcheck.
  - destruct (check_key_run w a i k Hcheck) as (e & He & ->).
    repeat constructor. by destruct e.
  - destruct (check_key_raise w a i k Hcheck) as (err & ->). constructor.
Qed.

Lemma for_keys_no_write (w : world) (a : args) (n : Z) (keys : list pystr) :
  forall (i : Z) (st : loop_state),
    Forall (fun e => is_write e = false) (fst (for_keys w a n st i keys)).
Proof.
  induction keys as [|k keys IH]; intros i [rs ds]; [constructor|].
  cbn [for_keys].
  assert (Hbody : Forall (fun e => is_write e = false)
                    (fst (loop_body w a n (rs, ds) i k))).
  { rewrite loop_body_events. constructor; [done|].
    apply Forall_app. split; [apply check_key_no_write|].
    destruct (turn_completes w a k); repeat constructor. }
  destruct (turn_completes w a k) eqn:Hturn.
  - destruct (loop_body_run w a n i k rs ds Hturn) as (t & Hrun & _).
    rewrite Hrun in Hbody |- *. rewrite bind_ret. cbn [fst] in *.
    apply Forall_app. split; [done|]. apply IH.
  - destruct (loop_body_raise w a n i k (rs, ds) Hturn) as (t & err & Hrun & _).
    rewrite Hrun in Hbody |- *. by rewrite bind_raise.
Qed.

Lemma validate_request_bound (w : world) (a : args) (keys : list pystr) :
  (length (List.filter is_request (fst (validate w a keys))) <= length keys)%nat.
Proof.
  destruct (loop_completes w a keys) eqn:Hloop.
  - destruct (validate_run w a keys Hloop) as (t & -> & Hn). cbn [fst]. lia.
  - by destruct (validate_raise w a keys Hloop) as (t & err & -> & Hn).
Qed.

(** X1: the loop never sends more requests than there are keys.  When
    every turn comes to its end, it does three things per key, in input
    order: it prints the progress line with the mask of the key, sends one
    request, and pauses for the delay; there are then exactly as many
    requests as keys. *)
Theorem loop_one_request_per_key (w : world) (a : args) (keys : list pystr) :
  (length (List.filter is_request (fst (validate w a keys))) <= length keys)%nat
  /\ (loop_completes w a keys = true ->
      fst (validate w a keys) = loop_events w a (Z.of_nat (length keys)) 1 keys
      /\ length (List.filter is_request (fst (validate w a keys))) = length keys
      /\ forall k, In k keys ->
           exists e, fst (check_key w a 1 k) = [e] /\ is_request e = true).
Proof.
  split; [apply validate_request_bound|]. intros Hloop.
  split; [by apply for_keys_events|]. split.
  - destruct (validate_run w a keys Hloop) as (t & -> & Hn). exact Hn.
  - intros k Hk.
    pose proof (proj1 (forallb_forall _ _) Hloop k Hk) as Hturn.
    apply andb_true_iff in Hturn as [Hcheck _].
    destruct (check_key_run w a 1 k Hcheck) as (e & He & ->). eauto.
Qed.

Lemma loop_one_request_per_key_witness :
  length (List.filter is_request
            (fst (validate Sample.sample_world Sample.sample_args sample_keys)))
  = 3%nat.
Proof.
  apply (proj2 (loop_one_request_per_key Sample.sample_world Sample.sample_args
                  sample_keys) eq_refl).
Defined.

Lemma tail_no_request (w : world) (a : args) (rs : list result)
    (ds : list debug_line) :
  List.filter is_request (fst (write_debug_log w a ds)) = []
  /\ List.filter is_request (fst (write_aktif w a rs)) = []
  /\ List.filter is_request (map (fun r => Print (report_line r)) rs) = [].
Proof.
  split; [|split].
  - rewrite write_debug_log_run. destruct (open_w _ _); [done|].
    by destruct (write_cut _ _ _) as [[n err]|].
  - rewrite write_aktif_run. destruct (aktif_path _ _); [|done].
    destruct (open_w _ _); [done|]. by destruct (write_cut _ _ _) as [[n err]|].
  - induction rs as [|r rs IH]; [done|]. exact IH.
Qed.

(** X2: over a whole run the program sends at most one request per key it
    read, exactly one when the loop comes to its end, and none when the key
    file cannot be read; the only files it ever writes are the debug log
    and the active-keys file. *)
Theorem main_requests_and_writes (w : world) (a : args) :
  (length (List.filter is_request (fst (main w a)))
   <= match read_keys (fs w) (arg_file a) with
      | inl keys => length keys
      | inr _ => 0
      end)%nat
  /\ (forall keys, read_keys (fs w) (arg_file a) = inl keys ->
                   loop_completes w a keys = true ->
                   length (List.filter is_request (fst (main w a))) = length keys)
  /\ forall p c, In (WriteFile p c) (fst (main w a)) ->
       p = path_str w (arg_debug_log a) \/ aktif_path w (arg_file a) = inl p.
Proof.
  destruct (read_keys (fs w) (arg_file a)) as [keys|err] eqn:Hkeys.
  2:{ unfold main. rewrite Hkeys. split; [done|]. split; [done|].
      intros p c [H|[]]. discriminate. }
  destruct keys as [|k keys].
  { unfold main. rewrite Hkeys. split; [done|]. split; [by intros ? [= <-]|].
    intros p c [H|[]]. discriminate. }
  assert (Hloopw : forall p c, ~ In (WriteFile p c) (fst (validate w a (k :: keys)))).
  { intros p c Hin.
    pose proof (for_keys_no_write w a (Z.of_nat (length (k :: keys))) (k :: keys) 1
                  ([], [])) as Hnw.
    apply list_elem_of_In in Hin.
    apply (proj1 (Forall_forall _ _) Hnw) in Hin. discriminate Hin. }
  destruct (loop_completes w a (k :: keys)) eqn:Hloop.
  - rewrite (main_events w a (k :: keys) Hkeys ltac:(done) Hloop). cbn [fst].
    destruct (tail_no_request w a
                (sorted sort_key (results_of (validate w a (k :: keys))))
                (debug_lines_of (validate w a (k :: keys)))) as (Hd & Ha & Hr).
    destruct (validate_run w a (k :: keys) Hloop) as (t & Hrun & Hreq).
    assert (Hcount : length (List.filter is_request
                       (fst (validate w a (k :: keys))
                        ++ [Print ([LF] ++ str "Validation results (top -> bottom):");
                            Print rule]
                        ++ map (fun r => Print (report_line r))
                             (sorted sort_key (results_of (validate w a (k :: keys))))
                        ++ [Print rule]
                        ++ fst (write_debug_log w a
                                  (debug_lines_of (validate w a (k :: keys))))
                        ++ fst (write_aktif w a
                                  (sorted sort_key
                                     (results_of (validate w a (k :: keys)))))))
                     = length (k :: keys)).
    { rewrite !List.filter_app, Hd, Ha, Hr. cbn [List.filter is_request app].
      rewrite app_nil_r, Hrun. exact Hreq. }
    split; [rewrite Hcount; lia|]. split; [by intros ? [= <-] _|].
    intros p c Hin. rewrite !in_app_iff in Hin.
    destruct Hin as [Hin|[Hin|[Hin|[Hin|[Hin|Hin]]]]].
    + exfalso. by apply (Hloopw p c).
    + destruct Hin as [H|[H|[]]]; discriminate.
    + apply in_map_iff in Hin as (r & H & _). discriminate.
    + destruct Hin as [H|[]]. discriminate.
    + left. rewrite write_debug_log_run in Hin. cbn [fst] in Hin.
      destruct (open_w _ _).
      * destruct Hin as [H|[]]. discriminate.
      * destruct (write_cut _ _ _) as [[n err]|];
          destruct Hin as [H|[H|[]]]; try discriminate; by injection H as <- _.
    + right. rewrite write_aktif_run in Hin. cbn [fst] in Hin.
      destruct (aktif_path _ _) as [q|err]; [|destruct Hin as [H|[]]; discriminate].
      destruct (open_w _ _).
      * destruct Hin as [H|[]]. discriminate.
      * destruct (write_cut _ _ _) as [[n err]|];
          destruct Hin as [H|[H|[]]]; try discriminate; by injection H as <- _.
  - destruct (main_raise w a (k :: keys) Hkeys Hloop) as (err & ->). cbn [fst].
    split; [apply validate_request_bound|]. split.
    + intros keys0 [= <-] Hloop0. congruence.
    + intros p c Hin. exfalso. by apply (Hloopw p c).
Qed.

Lemma main_requests_and_writes_witness :
  length (List.filter is_request
            (fst (main Sample.sample_world Sample.sample_args))) = 3%nat
  /\ (str "/home/u/aktif.txt" = path_str Sample.sample_world
                                   (arg_debug_log Sample.sample_args)
      \/ aktif_path Sample.sample_world (arg_file Sample.sample_args)
         = inl (str "/home/u/aktif.txt")).
Proof.
  split.
  - apply (proj1 (proj2 (main_requests_and_writes Sample.sample_world
                           Sample.sample_args)) sample_keys); reflexivity.
  - apply (proj2 (proj2 (main_requests_and_writes Sample.sample_world
                           Sample.sample_args))
             (str "/home/u/aktif.txt")
             (str "AIzaSyD-GOODKEY-0001," ++ [LF]
              ++ str "AIzaSyD-GOODKEY-0003," ++ [LF])).
    vm_compute. do 17 right. left. reflexivity.
Defined.

(** ** How a run ends *)

(** X3: the exit status is 2 when the key file is missing or cannot be
    read; otherwise it is 0 when the loop comes to its end (always so for
    an empty key list) and 1 when a turn of the loop raises, which happens
    for a delay [time.sleep] refuses and, without [requests], for a URL
    from which no request can be built.  Refused keys, network errors and
    files that cannot be written are never fatal. *)
Theorem exit_status_of_main (w : world) (a : args) :
  exit_status (snd (main w a))
  = match read_keys (fs w) (arg_file a) with
    | inl keys => if loop_completes w a keys then 0 else 1
    | inr _ => 2
    end.
Proof.
  destruct (read_keys (fs w) (arg_file a)) as [keys|err] eqn:Hkeys.
  - destruct (loop_completes w a keys) eqn:Hloop.
    + destruct keys as [|k keys].
      * unfold main. by rewrite Hkeys.
      * by rewrite (main_events w a (k :: keys) Hkeys ltac:(done) Hloop).
    + by destruct (main_raise w a keys Hkeys Hloop) as (e & ->).
  - unfold main. by rewrite Hkeys.
Qed.

(** X4: when the loop has come to its end and the debug log cannot be
    opened, or its writing is cut short, the error is reported on stderr as
    [Failed to write debug log: ...]; the file is left untouched in the
    first case and holds what was written in the second; the program goes
    on to the active-keys file and ends with exit status 0. *)
Theorem debug_log_failure_not_fatal (w : world) (a : args) (keys : list pystr)
    (n : nat) (err : pystr) :
  read_keys (fs w) (arg_file a) = inl keys ->
  keys <> [] ->
  loop_completes w a keys = true ->
  (open_w w (path_str w (arg_debug_log a)) = Some err
   \/ (open_w w (path_str w (arg_debug_log a)) = None
       /\ write_cut w (path_str w (arg_debug_log a))
            (debug_log_text w a (debug_lines_of (validate w a keys)))
          = Some (n, err))) ->
  (exists t,
     Forall (fun e => is_write e = false) t
     /\ fst (main w a)
        = t ++ match open_w w (path_str w (arg_debug_log a)) with
               | Some _ => []
               | None =>
                   [WriteFile (path_str w (arg_debug_log a))
                      (take n (debug_log_text w a
                                 (debug_lines_of (validate w a keys))))]
               end
            ++ PrintErr (str "Failed to write debug log: " ++ err)
               :: fst (write_aktif w a
                         (sorted sort_key (results_of (validate w a keys)))))
  /\ exit_status (snd (main w a)) = 0.
Proof.
  intros Hkeys Hne Hloop Hfail.
  pose proof (main_events w a keys Hkeys Hne Hloop) as Hmain.
  rewrite Hmain. split; [|done]. cbn [fst].
  exists (fst (validate w a keys)
          ++ [Print ([LF] ++ str "Validation results (top -> bottom):"); Print rule]
          ++ map (fun r => Print (report_line r))
               (sorted sort_key (results_of (validate w a keys)))
          ++ [Print rule]).
  split.
  - apply Forall_app. split; [apply for_keys_no_write|].
    apply Forall_app. split; [by repeat constructor|].
    apply Forall_app. split; [|by repeat constructor].
    apply Forall_forall. intros e He.
    apply list_elem_of_In, in_map_iff in He as (r & <- & _). done.
  - rewrite write_debug_log_run. cbn [fst].
    destruct Hfail as [Hopen | [Hopen Hcut]].
    + rewrite Hopen, <- !app_assoc. reflexivity.
    + rewrite Hopen, Hcut, <- !app_assoc. reflexivity.
Qed.

Lemma debug_log_failure_not_fatal_witness :
  exit_status (snd (main readonly_world Sample.sample_args)) = 0.
Proof.
  apply (debug_log_failure_not_fatal readonly_world Sample.sample_args sample_keys
           0%nat (str "Permission denied")).
  - reflexivity.
  - discriminate.
  - reflexivity.
  - left. reflexivity.
Defined.

(** X5: when the loop has come to its end and the place of the active-keys
    file cannot be worked out, the file cannot be opened, or its writing is
    cut short, the last thing the program does is to report the error on
    stderr as [Failed to write aktif.txt: ...]; in the last case the file
    holds what was written.  The program still ends with exit status 0. *)
Theorem aktif_failure_not_fatal (w : world) (a : args) (keys : list pystr)
    (p : pystr) (n : nat) (err : pystr) :
  read_keys (fs w) (arg_file a) = inl keys ->
  keys <> [] ->
  loop_completes w a keys = true ->
  (aktif_path w (arg_file a) = inr err
   \/ (aktif_path w (arg_file a) = inl p /\ open_w w p = Some err)
   \/ (aktif_path w (arg_file a) = inl p /\ open_w w p = None
       /\ write_cut w p
            (aktif_text (sorted sort_key (results_of (validate w a keys))))
          = Some (n, err))) ->
  (exists t, fst (main w a)
             = t ++ [PrintErr (str "Failed to write aktif.txt: " ++ err)])
  /\ (aktif_path w (arg_file a) = inl p -> open_w w p = None ->
      exists t, fst (main w a)
                = t ++ [WriteFile p
                          (take n (aktif_text
                             (sorted sort_key (results_of (validate w a keys)))));
                        PrintErr (str "Failed to write aktif.txt: " ++ err)])
  /\ exit_status (snd (main w a)) = 0.
Proof.
  intros Hkeys Hne Hloop Hfail.
  pose proof (main_events w a keys Hkeys Hne Hloop) as Hmain.
  rewrite Hmain. cbn [fst]. rewrite write_aktif_run. cbn [fst].
  set (front := fst (validate w a keys)
          ++ [Print ([LF] ++ str "Validation results (top -> bottom):"); Print rule]
          ++ map (fun r => Print (report_line r))
               (sorted sort_key (results_of (validate w a keys)))
          ++ [Print rule]
          ++ fst (write_debug_log w a (debug_lines_of (validate w a keys)))).
  split; [|split; [|done]].
  - destruct Hfail as [Hpath | [[Hpath Hopen] | (Hpath & Hopen & Hcut)]].
    + rewrite Hpath. exists front. subst front. by rewrite <- !app_assoc.
    + rewrite Hpath, Hopen. exists front. subst front. by rewrite <- !app_assoc.
    + rewrite Hpath, Hopen, Hcut.
      exists (front ++ [WriteFile p (take n (aktif_text
                (sorted sort_key (results_of (validate w a keys)))))]).
      subst front. by rewrite <- !app_assoc.
  - intros Hpath Hopen.
    destruct Hfail as [Hpath' | [[_ Hopen'] | (_ & _ & Hcut)]]; [congruence..|].
    rewrite Hpath, Hopen, Hcut. exists front. subst front.
    by rewrite <- !app_assoc.
Qed.

Lemma aktif_failure_not_fatal_witness :
  exists t, fst (main readonly_world Sample.sample_args)
            = t ++ [PrintErr (str "Failed to write aktif.txt: "
                              ++ str "Permission denied")].
Proof.
  apply (aktif_failure_not_fatal readonly_world Sample.sample_args sample_keys
           (str "/home/u/aktif.txt") 0%nat (str "Permission denied")).
  - reflexivity.
  - discriminate.
  - reflexivity.
  - right. left. split; reflexivity.
Defined.

(** ** The keys that are read *)

Lemma drop_while_head (p : N -> bool) (s : pystr) :
  match drop_while p s with c :: _ => p c = false | [] => True end.
Proof.
  induction s as [|c s IH]; [done|]. cbn [drop_while].
  by destruct (p c) eqn:Hc.
Qed.

Lemma drop_while_Forall (P : N -> Prop) (p : N -> bool) (s : pystr) :
  Forall P s -> Forall P (drop_while p s).
Proof.
  induction 1 as [|c s Hc Hs IH]; [constructor|]. cbn [drop_while].
  destruct (p c); [done|]. by constructor.
Qed.

Lemma drop_while_app_last (p : N -> bool) (l : pystr) (x : N) :
  p x = false -> drop_while p (l ++ [x]) = drop_while p l ++ [x].
Proof.
  intros Hx. induction l as [|c l IH]; cbn [app drop_while].
  - by rewrite Hx.
  - by destruct (p c).
Qed.

Lemma trimmed_strip (s : pystr) : trimmed (strip s).
Proof.
  unfold strip, rstrip, lstrip, trimmed. rewrite rev_involutive.
  pose proof (drop_while_head is_space s) as Hhead.
  destruct (drop_while is_space s) as [|x t]; [done|].
  split; [|apply drop_while_head].
  cbn [rev]. rewrite drop_while_app_last by done.
  rewrite rev_app_distr. done.
Qed.

Lemma strip_trimmed (s : pystr) : trimmed s -> strip s = s.
Proof.
  intros [Hhead Hlast]. unfold strip, rstrip, lstrip.
  assert (Hl : drop_while is_space s = s).
  { destruct s as [|c s]; [done|]. cbn [drop_while]. by rewrite Hhead. }
  rewrite Hl.
  assert (Hr : drop_while is_space (rev s) = rev s).
  { destruct (rev s) as [|c t]; [done|]. cbn [drop_while]. by rewrite Hlast. }
  by rewrite Hr, rev_involutive.
Qed.

Lemma strip_Forall (P : N -> Prop) (s : pystr) : Forall P s -> Forall P (strip s).
Proof.
  intros Hs. unfold strip, rstrip, lstrip.
  apply Forall_rev, drop_while_Forall, Forall_rev. by apply drop_while_Forall.
Qed.

Lemma splitlines_from_no_linebreak (n : nat) :
  forall (s cur : pystr),
    (length s <= n)%nat ->
    Forall (fun c => is_linebreak c = false) cur ->
    Forall (Forall (fun c => is_linebreak c = false)) (splitlines_from cur s).
Proof.
  induction n as [|n IH]; intros s cur Hn Hcur.
  - destruct s; [|cbn in Hn; lia]. cbn [splitlines_from].
    destruct cur; repeat constructor. by apply Forall_rev.
  - destruct s as [|c rest].
    { cbn [splitlines_from]. destruct cur; repeat constructor. by apply Forall_rev. }
    cbn [length] in Hn. cbn [splitlines_from].
    destruct (is_linebreak c) eqn:Hc.
    + constructor; [by apply Forall_rev|].
      destruct (c =? CR)%N.
      * destruct rest as [|d rest']; [apply IH; [cbn; lia|constructor]|].
        cbn [length] in Hn.
        destruct (d =? LF)%N; apply IH; cbn [length]; try lia; constructor.
      * apply IH; [lia|constructor].
    + apply IH; [lia|]. by constructor.
Qed.

Lemma kept_strip (line : pystr) :
  kept line = true -> strip line <> [] /\ startswith_char 35%N (strip line) = false.
Proof.
  unfold kept, is_blank, is_comment. intros H.
  apply andb_true_iff in H as [H1 H2].
  split; [by destruct (strip line)|]. by destruct (startswith_char _ _).
Qed.

Lemma read_keys_keys_clean (fs : pystr -> file_state) (path : pystr)
    (keys : list pystr) :
  read_keys fs path = inl keys -> Forall clean_key keys.
Proof.
  unfold read_keys. destruct (fs path) as [| |text]; try done.
  intros [= <-]. rewrite read_keys_loop_filter. cbn [app].
  pose proof (splitlines_from_no_linebreak (length text) text [] (le_n _)
                ltac:(constructor)) as Hlines.
  fold (splitlines text) in Hlines.
  induction Hlines as [|line lines Hline Hlines IH]; [constructor|].
  cbn [List.filter]. destruct (kept line) eqn:Hkept; [|exact IH].
  cbn [map]. constructor; [|exact IH].
  destruct (kept_strip line Hkept) as [Hne Hhash].
  repeat split; try done.
  - apply trimmed_strip.
  - apply trimmed_strip.
  - by apply strip_Forall.
Qed.

(** X6: every key [read_keys] returns is not empty, has no white space at
    either end, does not start with [#] and holds no line boundary. *)
Theorem read_keys_clean (fs : pystr -> file_state) (path : pystr)
    (keys : list pystr) :
  read_keys fs path = inl keys -> Forall clean_key keys.
Proof. apply read_keys_keys_clean. Qed.

Lemma read_keys_clean_witness :
  Forall clean_key
    [str "AIzaSyD-GOODKEY-0001"; str "short"; str "AIzaSyD-GOODKEY-0003"].
Proof.
  apply (read_keys_clean (fs Sample.sample_world) (str "api.txt")).
  reflexivity.
Defined.

Lemma clean_key_kept (k : pystr) : clean_key k -> kept k = true /\ strip k = k.
Proof.
  intros (Hne & Htrim & Hhash & _).
  pose proof (strip_trimmed k Htrim) as Hstrip. split; [|done].
  unfold kept, is_blank, is_comment. rewrite Hstrip, Hhash.
  by destruct k.
Qed.

Lemma splitlines_from_line (l cur rest : pystr) :
  Forall (fun c => is_linebreak c = false) l ->
  splitlines_from cur (l ++ LF :: rest) = (rev cur ++ l) :: splitlines_from [] rest.
Proof.
  intros Hl. revert cur. induction Hl as [|c l Hc Hl IH]; intros cur.
  - cbn [app splitlines_from]. by rewrite app_nil_r.
  - cbn [app splitlines_from]. rewrite Hc, IH. cbn [rev].
    by rewrite <- app_assoc.
Qed.

Lemma splitlines_lines (ls : list pystr) :
  Forall (Forall (fun c => is_linebreak c = false)) ls ->
  splitlines (concat (map (fun l => l ++ [LF]) ls)) = ls.
Proof.
  unfold splitlines. induction 1 as [|l ls Hl Hls IH]; [done|].
  cbn [map concat]. rewrite <- app_assoc. cbn [app].
  by rewrite splitlines_from_line, IH.
Qed.

Lemma read_keys_loop_clean (keys : list pystr) :
  Forall clean_key keys -> read_keys_loop [] keys = keys.
Proof.
  intros Hkeys. rewrite read_keys_loop_filter. cbn [app].
  induction Hkeys as [|k keys Hk Hkeys IH]; [done|].
  destruct (clean_key_kept k Hk) as [Hkept Hstrip].
  cbn [List.filter]. rewrite Hkept. cbn [map]. by rewrite Hstrip, IH.
Qed.

(** X7: a key file made of the keys that were read, one per line, reads
    back as the same list of keys. *)
Theorem read_keys_round_trip (fs fs' : pystr -> file_state) (path path' : pystr)
    (keys : list pystr) :
  read_keys fs path = inl keys ->
  fs' path' = Holds (concat (map (fun k => k ++ [LF]) keys)) ->
  read_keys fs' path' = inl keys.
Proof.
  intros Hkeys Hfs'. apply read_keys_keys_clean in Hkeys.
  unfold read_keys. rewrite Hfs'. f_equal.
  rewrite splitlines_lines.
  2:{ eapply Forall_impl; [exact Hkeys|]. by intros k (_ & _ & _ & Hk). }
  by apply read_keys_loop_clean.
Qed.

Lemma read_keys_round_trip_witness :
  read_keys (fun _ => Holds (concat (map (fun k => k ++ [LF]) sample_keys)))
    (str "copy.txt")
  = inl sample_keys.
Proof.
  apply (read_keys_round_trip (fs Sample.sample_world)
           (fun _ => Holds (concat (map (fun k => k ++ [LF]) sample_keys)))
           (str "api.txt") (str "copy.txt")).
  - reflexivity.
  - reflexivity.
Defined.

Lemma results_from_keys (w : world) (a : args) (keys : list pystr) (i : Z) :
  map key (results_from w a i keys) = keys.
Proof. revert i. induction keys as [|k keys IH]; intros i; [done|]. cbn. by rewrite IH. Qed.

Lemma comma_key_clean (k : pystr) : clean_key k -> clean_key (k ++ str ",").
Proof.
  intros (Hne & [Hhead Hlast] & Hhash & Hlb).
  destruct k as [|c k]; [done|].
  repeat split.
  - done.
  - exact Hhead.
  - by rewrite rev_app_distr.
  - exact Hhash.
  - apply Forall_app. split; [done|]. by repeat constructor.
Qed.

(** X8: the active-keys file is not a key file of the same keys: read back
    with [read_keys], it gives every active key with the comma that ends
    its line. *)
Theorem aktif_file_read_back (w : world) (a : args) (keys : list pystr)
    (fs' : pystr -> file_state) (path' : pystr) :
  read_keys (fs w) (arg_file a) = inl keys ->
  fs' path' = Holds (aktif_text (sorted sort_key (results_of (validate w a keys)))) ->
  read_keys fs' path'
  = inl (map (fun r => key r ++ str ",")
           (List.filter ok (results_of (validate w a keys)))).
Proof.
  intros Hkeys Hfs'. apply read_keys_keys_clean in Hkeys.
  pose proof (results_of_increasing w a keys) as Hinc.
  assert (Hclean : Forall clean_key
            (map (fun r => key r ++ str ",")
               (List.filter ok (results_of (validate w a keys))))).
  { apply Forall_forall. intros x Hx.
    apply list_elem_of_In, in_map_iff in Hx as (r & <- & Hr).
    apply List.filter_In in Hr as [Hr _].
    apply comma_key_clean.
    apply (proj1 (Forall_forall _ _) Hkeys).
    apply results_of_from in Hr.
    rewrite <- (results_from_keys w a keys 1).
    apply list_elem_of_In, in_map_iff. exists r. split; [done|].
    by apply list_elem_of_In. }
  unfold read_keys. rewrite Hfs'. f_equal.
  rewrite aktif_text_filter, filter_ok_sorted by done.
  assert (Htext : concat (map key_line
                    (map key (List.filter ok (results_of (validate w a keys)))))
                  = concat (map (fun l => l ++ [LF])
                      (map (fun r => key r ++ str ",")
                         (List.filter ok (results_of (validate w a keys)))))).
  { rewrite !map_map. f_equal. apply map_ext. intros r. unfold key_line.
    by rewrite <- app_assoc. }
  rewrite Htext, splitlines_lines.
  2:{ eapply Forall_impl; [exact Hclean|]. by intros k (_ & _ & _ & Hk). }
  by apply read_keys_loop_clean.
Qed.

Lemma aktif_file_read_back_witness :
  read_keys
    (fun _ => Holds (aktif_text (sorted sort_key
       (results_of (validate Sample.sample_world Sample.sample_args sample_keys)))))
    (str "aktif.txt")
  = inl (map (fun r => key r ++ str ",")
           (List.filter ok
              (results_of (validate Sample.sample_world Sample.sample_args
                             sample_keys)))).
Proof.
  apply (aktif_file_read_back Sample.sample_world Sample.sample_args sample_keys).
  - reflexivity.
  - reflexivity.
Defined.

(** ** What the active-keys file holds *)

Lemma results_of_keys_clean (w : world) (a : args) (keys : list pystr) :
  Forall clean_key keys ->
  Forall (fun r => clean_key (key r)) (results_of (validate w a keys)).
Proof.
  intros Hkeys. apply Forall_forall. intros r Hr.
  apply list_elem_of_In, results_of_from in Hr.
  apply (proj1 (Forall_forall _ _) Hkeys).
  rewrite <- (results_from_keys w a keys 1).
  apply list_elem_of_In, in_map_iff. exists r. split; [done|].
  by apply list_elem_of_In.
Qed.

(** The lines of the text written for records whose keys are clean. *)
Lemma aktif_lines (rs : list result) :
  Forall (fun r => clean_key (key r)) rs ->
  splitlines (aktif_text rs) = map (fun r => key r ++ str ",") (List.filter ok rs).
Proof.
  intros Hrs. rewrite aktif_text_filter.
  assert (Htext : concat (map key_line (map key (List.filter ok rs)))
                  = concat (map (fun l => l ++ [LF])
                      (map (fun r => key r ++ str ",") (List.filter ok rs)))).
  { rewrite !map_map. f_equal. apply map_ext. intros r. unfold key_line.
    by rewrite <- app_assoc. }
  rewrite Htext. apply splitlines_lines.
  apply Forall_forall. intros x Hx.
  apply list_elem_of_In, in_map_iff in Hx as (r & <- & Hr).
  apply List.filter_In in Hr as [Hr _]. apply list_elem_of_In in Hr.
  pose proof (proj1 (Forall_forall _ _) Hrs r Hr) as (_ & _ & _ & Hlb).
  apply Forall_app. split; [done|]. by repeat constructor.
Qed.

Lemma filter_ok_increasing (rs : list result) :
  StronglySorted index_lt rs -> StronglySorted index_lt (List.filter ok rs).
Proof.
  induction 1 as [|r rs Hrs IH Hr]; cbn [List.filter]; [constructor|].
  destruct (ok r); [|done]. constructor; [done|].
  apply Forall_forall. intros y Hy.
  apply list_elem_of_In, List.filter_In in Hy as [Hy _].
  apply list_elem_of_In in Hy. by apply (proj1 (Forall_forall _ _) Hr).
Qed.

(** C5, as stated, fails for a key that is listed twice and answered
    differently: it is in the file for the record that has [ok = true],
    although its other record has [ok = false]. *)
Lemma aktif_file_twice_counterexample :
  read_keys (fs Sample.twice_world) (arg_file Sample.sample_args)
  = inl [str "AIzaSyD-GOODKEY-0001"; str "AIzaSyD-GOODKEY-0001"]
  /\ exists t content r,
       main Sample.twice_world Sample.sample_args
       = (t ++ [WriteFile (str "/home/u/aktif.txt") content;
                Print (str "Active keys written to: " ++ str "/home/u/aktif.txt")],
          Ret tt)
       /\ In r (results_of (validate Sample.twice_world Sample.sample_args
                  [str "AIzaSyD-GOODKEY-0001"; str "AIzaSyD-GOODKEY-0001"]))
       /\ ok r = false
       /\ In (key r ++ str ",") (splitlines content).
Proof.
  split; [reflexivity|].
  pose proof (main_events Sample.twice_world Sample.sample_args
                [str "AIzaSyD-GOODKEY-0001"; str "AIzaSyD-GOODKEY-0001"]
                eq_refl ltac:(discriminate) eq_refl) as Hmain.
  rewrite write_aktif_run in Hmain.
  change (aktif_path Sample.twice_world (arg_file Sample.sample_args))
    with (@inl pystr pystr (str "/home/u/aktif.txt")) in Hmain.
  change (open_w Sample.twice_world (str "/home/u/aktif.txt"))
    with (@None pystr) in Hmain.
  change (write_cut Sample.twice_world (str "/home/u/aktif.txt") ?c)
    with (@None (nat * pystr)) in Hmain.
  cbn [fst] in Hmain. rewrite !app_assoc in Hmain.
  eexists _, _,
    {| index := 2; key := str "AIzaSyD-GOODKEY-0001"; masked := str "AIza...0001";
       status := Some 403; ok := false; note := str "Invalid / Unauthorized" |}.
  split; [exact Hmain|].
  split; [right; left; reflexivity|]. split; [reflexivity|].
  left. reflexivity.
Qed.

(** C5, amended: in a run with at least one key whose loop comes to its end
    and in which the active-keys file is opened and written in full, the
    last thing written is that file, and its lines are, for each record
    with [ok = true] and in the order of the loop, that is by increasing
    index, the key of the record followed by a comma.  A record with
    [ok = false] gives no line: a key is in the file exactly when one of
    its records has [ok = true]. *)
Theorem aktif_file_holds_active_keys (w : world) (a : args)
    (keys : list pystr) (p : pystr) :
  read_keys (fs w) (arg_file a) = inl keys ->
  keys <> [] ->
  loop_completes w a keys = true ->
  aktif_path w (arg_file a) = inl p ->
  open_w w p = None ->
  write_cut w p (aktif_text (sorted sort_key (results_of (validate w a keys)))) = None ->
  (exists t,
     main w a
     = (t ++ [WriteFile p
                (aktif_text (sorted sort_key (results_of (validate w a keys))));
              Print (str "Active keys written to: " ++ p)],
        Ret tt))
  /\ splitlines (aktif_text (sorted sort_key (results_of (validate w a keys))))
     = map (fun r => key r ++ str ",")
         (List.filter ok (results_of (validate w a keys)))
  /\ StronglySorted index_lt (List.filter ok (results_of (validate w a keys)))
  /\ (forall k : pystr,
        In (k ++ str ",")
           (splitlines (aktif_text (sorted sort_key (results_of (validate w a keys)))))
        <-> exists r, In r (results_of (validate w a keys))
                      /\ key r = k /\ ok r = true).
Proof.
  intros Hkeys Hne Hloop Hpath Hopen Hcut.
  pose proof (results_of_increasing w a keys) as Hinc.
  pose proof (results_of_keys_clean w a keys (read_keys_keys_clean _ _ _ Hkeys))
    as Hclean.
  assert (Hlines :
    splitlines (aktif_text (sorted sort_key (results_of (validate w a keys))))
    = map (fun r => key r ++ str ",")
        (List.filter ok (results_of (validate w a keys)))).
  { rewrite aktif_text_filter, filter_ok_sorted by done.
    rewrite <- aktif_text_filter. by apply aktif_lines. }
  split; [|split; [exact Hlines|split]].
  - rewrite (main_events w a keys Hkeys Hne Hloop).
    rewrite write_aktif_run, Hpath, Hopen, Hcut. cbn [fst].
    eexists. rewrite !app_assoc. reflexivity.
  - by apply filter_ok_increasing.
  - intros k. rewrite Hlines, in_map_iff. split.
    + intros (r & Heq & Hr). apply List.filter_In in Hr as [Hr Hok].
      apply app_inv_tail in Heq. by exists r.
    + intros (r & Hr & <- & Hok). exists r. split; [done|].
      by apply List.filter_In.
Qed.

Lemma aktif_file_holds_active_keys_witness :
  splitlines (aktif_text (sorted sort_key
    (results_of (validate Sample.sample_world Sample.sample_args sample_keys))))
  = map (fun r => key r ++ str ",")
      (List.filter ok
         (results_of (validate Sample.sample_world Sample.sample_args sample_keys))).
Proof.
  apply (aktif_file_holds_active_keys Sample.sample_world Sample.sample_args
           sample_keys (str "/home/u/aktif.txt")).
  - reflexivity.
  - discriminate.
  - reflexivity.
  - reflexivity.
  - reflexivity.
  - reflexivity.
Defined.

Example aktif_sample :
  aktif_text (sorted sort_key
    (results_of (validate Sample.sample_world Sample.sample_args sample_keys)))
  = str "AIzaSyD-GOODKEY-0001," ++ [LF] ++ str "AIzaSyD-GOODKEY-0003," ++ [LF].
Proof. reflexivity. Qed.

(** ** The mask, the records and the debug records *)

(** X9: a mask never has more than 11 characters, whatever the length of
    the key, so the column of 20 characters the report gives it is never
    exceeded. *)
Theorem mask_fits_column (k m : pystr) :
  mask_key k = Some m ->
  (length m <= 11)%nat
  /\ ((10 < length k)%nat -> length m = 11%nat)
  /\ length (ljust 20 m) = 20%nat.
Proof.
  rewrite mask_key_text. intros [= <-].
  assert (Hlen : (length (mask_text k) <= 11)%nat
                 /\ ((10 < length k)%nat -> length (mask_text k) = 11%nat)).
  { unfold mask_text, first_chars, last_chars.
    destruct (Nat.leb_spec (length k) 10);
      rewrite !length_app, length_take, length_drop;
      change (length (str "...")) with 3%nat; lia. }
  destruct Hlen as [Hle Heq]. split; [done|]. split; [done|].
  unfold ljust. rewrite length_app, length_replicate. lia.
Qed.

Lemma mask_fits_column_witness :
  length (ljust 20 (str "AIza...0001")) = 20%nat.
Proof.
  apply (mask_fits_column (str "AIzaSyD-GOODKEY-0001") (str "AIza...0001")).
  reflexivity.
Defined.

(** X10: in every record of a run, [ok] is true exactly when the status is
    200, the mask is the mask of the record's key, and the key is one of
    the keys that were given. *)
Theorem record_invariant (w : world) (a : args) (keys : list pystr) (r : result) :
  In r (results_of (validate w a keys)) ->
  (ok r = true <-> status r = Some 200)
  /\ mask_key (key r) = Some (masked r)
  /\ In (key r) keys.
Proof.
  intros Hr. apply results_of_from in Hr.
  pose proof (results_from_elem w a keys 1 r Hr) as [Heq _].
  split; [|split].
  - rewrite Heq. unfold result_for. cbn [ok status].
    destruct (answer w a (index r) (key r)) as [[c|] body]; cbn [fst snd classify].
    + destruct (Z.eqb_spec c 200) as [->|Hc]; [done|].
      destruct ((c =? 401) || (c =? 403)); cbn [fst]; split; try done; congruence.
    + done.
  - rewrite Heq. cbn [key masked result_for]. apply mask_key_text.
  - pose proof (in_map key _ _ (proj1 (list_elem_of_In _ _) Hr)) as Hin.
    by rewrite results_from_keys in Hin.
Qed.

Lemma record_invariant_witness :
  (ok result_three = true <-> status result_three = Some 200)
  /\ mask_key (key result_three) = Some (masked result_three)
  /\ In (key result_three) [str "k1"; str "k2"; str "k3"].
Proof.
  apply (record_invariant Sample.sample_world Sample.sample_args
           [str "k1"; str "k2"; str "k3"] result_three).
  right. right. left. reflexivity.
Defined.

Lemma debug_from_lookup (w : world) (a : args) (keys : list pystr) (i : Z) (j : nat) :
  debug_from w a i keys !! j
  = (fun k => debug_for w a (i + Z.of_nat j) k) <$> keys !! j.
Proof.
  revert i j. induction keys as [|k keys IH]; intros i [|j]; simpl; try done.
  - by rewrite Z.add_0_r.
  - rewrite IH. destruct (keys !! j); simpl; [|done].
    do 2 f_equal. lia.
Qed.

(** X11: the debug records go with the result records position by
    position: same index, same mask, same status, and the auth mode of the
    command line.  The key itself is in no debug record. *)
Theorem debug_lines_match_results (w : world) (a : args) (keys : list pystr)
    (i : nat) (r : result) :
  results_of (validate w a keys) !! i = Some r ->
  exists d,
    debug_lines_of (validate w a keys) !! i = Some d
    /\ d_index d = index r /\ d_masked d = masked r /\ d_status d = status r
    /\ d_auth_mode d = auth_mode_str (arg_auth_mode a).
Proof.
  destruct (validate_results w a keys) as [-> ->].
  destruct (loop_completes w a keys); [|done].
  rewrite results_from_lookup, debug_from_lookup.
  destruct (keys !! i) as [k|]; [|done]. cbn [fmap option_fmap option_map].
  intros [= <-]. eexists. split; [reflexivity|]. done.
Qed.

Lemma debug_lines_match_results_witness :
  exists d,
    debug_lines_of (validate Sample.sample_world Sample.sample_args sample_keys)
      !! 1%nat = Some d
    /\ d_index d = 2 /\ d_masked d = str "sh...rt" /\ d_status d = Some 403
    /\ d_auth_mode d = str "query_key".
Proof.
  apply (debug_lines_match_results Sample.sample_world Sample.sample_args
           sample_keys 1
           {| index := 2; key := str "short"; masked := str "sh...rt";
              status := Some 403; ok := false;
              note := str "Invalid / Unauthorized" |}).
  reflexivity.
Defined.

(** X12: taking the preview of a body never fails; the preview is the body
    itself when it has at most 1000 characters, and otherwise its first
    1000 characters followed by three dots; it never has more than 1003
    characters. *)
Theorem body_preview_bounded (body : pystr) :
  exists pv,
    body_preview body = Some pv
    /\ (length pv <= 1003)%nat
    /\ ((length body <= 1000)%nat -> pv = body)
    /\ ((1000 < length body)%nat -> pv = take 1000 body ++ str "...").
Proof.
  exists (preview_text body). split; [apply body_preview_text|].
  unfold preview_text.
  destruct (Nat.ltb_spec 1000 (length body)) as [Hlong|Hshort].
  - split; [|split]; [|lia|done].
    rewrite length_app, length_take. change (length (str "...")) with 3%nat. lia.
  - split; [lia|]. split; [done|lia].
Qed.

Lemma body_preview_bounded_witness :
  exists pv,
    body_preview (replicate 2000 120%N) = Some pv
    /\ (length pv <= 1003)%nat
    /\ ((length (replicate 2000 120%N) <= 1000)%nat -> pv = replicate 2000 120%N)
    /\ ((1000 < length (replicate 2000 120%N))%nat ->
        pv = take 1000 (replicate 2000 120%N) ++ str "...").
Proof. apply (body_preview_bounded (replicate 2000 120%N)). Defined.

(** X13: the report of a run lists the records with [ok = true] in input
    order and after them the other records in input order. *)
Theorem report_order_of_run (w : world) (a : args) (keys : list pystr) :
  sorted sort_key (results_of (validate w a keys))
  = List.filter ok (results_of (validate w a keys))
    ++ List.filter (fun r => negb (ok r)) (results_of (validate w a keys)).
Proof.
  apply sorted_increasing, results_of_increasing.
Qed.

(** ** The two transports *)





(** ** Sorting *)

Lemma tuple_eqb_below (kv x y : Z * Z) :
  tuple_eqb kv x = true -> tuple_lt y x = true -> tuple_eqb kv y = false.
Proof.
  rewrite tuple_lt_spec. unfold tuple_eqb.
  rewrite andb_true_iff, andb_false_iff, !Z.eqb_eq, !Z.eqb_neq. lia.
Qed.

Lemma insert_by_filter {A} (f : A -> Z * Z) (kv : Z * Z) (x : A) (l : list A) :
  List.filter (fun y => tuple_eqb kv (f y)) (insert_by f x l)
  = List.filter (fun y => tuple_eqb kv (f y)) (x :: l).
Proof.
  induction l as [|y l IH]; [done|].
  cbn [insert_by]. destruct (tuple_lt (f y) (f x)) eqn:Hlt; [|done].
  cbn [List.filter] in *. rewrite IH.
  destruct (tuple_eqb kv (f x)) eqn:Hx; [|done].
  by rewrite (tuple_eqb_below _ _ _ Hx Hlt).
Qed.

(** X16: sorting is stable: the elements that have a given sort key are in
    the sorted list in the order they had before. *)
Theorem sorted_stable {A} (f : A -> Z * Z) (kv : Z * Z) (l : list A) :
  List.filter (fun y => tuple_eqb kv (f y)) (sorted f l)
  = List.filter (fun y => tuple_eqb kv (f y)) l.
Proof.
  induction l as [|x l IH]; [done|].
  cbn [sorted foldr]. fold (sorted f l).
  rewrite insert_by_filter. cbn [List.filter]. by rewrite IH.
Qed.
